(** * notion-service: the resilient API client layer

    A shallow embedding of [internal/sdk.ts] (rate limiter, HTTP pipeline,
    typed facade) and of the pagination helper [fetchAllPages] of the
    operations module, followed by the properties established about them.

    The program is written against the Effect runtime and a JavaScript
    platform.  The parts of both that the program relies on are modelled
    first ([Module JS], [Module Effect], [Module TSemaphore]); the
    program itself follows, definition by definition, with the names it has
    in the source. *)

From Stdlib Require Import String Ascii List ZArith QArith Bool Lia DecimalString.
Import ListNotations.
Local Close Scope Q_scope.
Local Open Scope list_scope.
Local Open Scope string_scope.

(* ====================================================================== *)
(** * The JavaScript platform *)
(* ====================================================================== *)

Module JS.

(** ** Strings *)

Definition code (c : ascii) : nat := nat_of_ascii c.

Definition between (lo hi : nat) (c : ascii) : bool :=
  (lo <=? code c)%nat && (code c <=? hi)%nat.

Definition is_digit : ascii -> bool := between 48 57.
Definition is_lower : ascii -> bool := between 97 122.
Definition is_upper : ascii -> bool := between 65 90.
Definition is_alnum (c : ascii) : bool := is_digit c || is_lower c || is_upper c.

Definition is_char (x c : ascii) : bool := Ascii.eqb x c.

Definition one_of (cs : string) (c : ascii) : bool :=
  existsb (is_char c) (list_ascii_of_string cs).

Definition to_lower (c : ascii) : ascii :=
  if is_upper c then ascii_of_nat (code c + 32) else c.

Fixpoint lowercase (s : string) : string :=
  match s with
  | EmptyString => EmptyString
  | String c r => String (to_lower c) (lowercase r)
  end.

Fixpoint starts_with (p s : string) : bool :=
  match p, s with
  | EmptyString, _ => true
  | String a p', String b s' => Ascii.eqb a b && starts_with p' s'
  | String _ _, EmptyString => false
  end.

Fixpoint drop (n : nat) (s : string) : string :=
  match n, s with
  | S n', String _ r => drop n' r
  | _, _ => s
  end.

Fixpoint join (sep : string) (l : list string) : string :=
  match l with
  | [] => ""
  | x :: r => match r with [] => x | _ => x ++ sep ++ join sep r end
  end.

(** [span p s] is the longest prefix of [s] whose characters satisfy [p],
    and what follows it. *)
Fixpoint span (p : ascii -> bool) (s : string) : string * string :=
  match s with
  | EmptyString => ("", "")
  | String c r =>
      if p c then let (a, b) := span p r in (String c a, b) else ("", s)
  end.

(** [split_at p s] cuts [s] at every character satisfying [p]; the result
    always has at least one piece. *)
Fixpoint split_at (p : ascii -> bool) (s : string) : list string :=
  match s with
  | EmptyString => [""]
  | String c r =>
      if p c then "" :: split_at p r
      else match split_at p r with
           | [] => [String c ""]
           | x :: xs => String c x :: xs
           end
  end.

(** [cut p s] cuts [s] at the first character satisfying [p]: what is
    before it, and what is after it when there is one. *)
Fixpoint cut (p : ascii -> bool) (s : string) : string * option string :=
  match s with
  | EmptyString => ("", None)
  | String c r =>
      if p c then ("", Some r)
      else let (a, b) := cut p r in (String c a, b)
  end.

Definition hex_digit (n : nat) : ascii :=
  if (n <? 10)%nat then ascii_of_nat (48 + n) else ascii_of_nat (55 + n).

Definition hex_value (c : ascii) : option nat :=
  if is_digit c then Some (code c - 48)%nat
  else if between 97 102 c then Some (code c - 87)%nat
  else if between 65 70 c then Some (code c - 55)%nat
  else None.

(** [%XX], upper-case hexadecimal. *)
Definition percent_byte (c : ascii) : string :=
  String "%" (String (hex_digit (code c / 16)) (String (hex_digit (code c mod 16)) "")).

Fixpoint percent_encode (unsafe : ascii -> bool) (s : string) : string :=
  match s with
  | EmptyString => ""
  | String c r =>
      (if unsafe c then percent_byte c else String c "") ++ percent_encode unsafe r
  end.

Fixpoint percent_decode (s : string) : string :=
  match s with
  | EmptyString => ""
  | String c r =>
      match c, r with
      | "%"%char, String a (String b r') =>
          match hex_value a, hex_value b with
          | Some x, Some y => String (ascii_of_nat (16 * x + y)) (percent_decode r')
          | _, _ => String c (percent_decode r)
          end
      | _, _ => String c (percent_decode r)
      end
  end.

(** [String(n)] for an integral number. *)
Definition string_of_Z (z : Z) : string := NilZero.string_of_int (Z.to_int z).

(** ** JSON values, [JSON.parse] and [JSON.stringify]

    Numbers keep their literal: the program never computes with them.
    Strings are byte strings; a [\uXXXX] escape is decoded to the UTF-8
    bytes of its code unit. *)

#[local] Set Warnings "-register-all".

Inductive json : Type :=
| JNull
| JBool (b : bool)
| JNumber (literal : string)
| JString (s : string)
| JArray (items : list json)
| JObject (members : list (string * json)).

Definition is_ws : ascii -> bool := one_of (String " " (String "009" (String "010" (String "013" "")))).

Fixpoint skip_ws (s : string) : string :=
  match s with
  | EmptyString => s
  | String c r => if is_ws c then skip_ws r else s
  end.

Definition expect (word : string) (v : json) (s : string) : option (json * string) :=
  if starts_with word s then Some (v, drop (String.length word) s) else None.

(** The number grammar: an optional minus sign; a single zero or a digit
    string not starting with zero; an optional fraction (a point and at
    least one digit); an optional exponent (e or E, an optional sign, at
    least one digit). *)
Definition lex_digits1 (s : string) : option (string * string) :=
  match span is_digit s with
  | (EmptyString, _) => None
  | (ds, r) => Some (ds, r)
  end.

Definition lex_int (s : string) : option (string * string) :=
  match s with
  | String "0" r => Some ("0", r)
  | _ => lex_digits1 s
  end.

Definition lex_frac (s : string) : option (string * string) :=
  match s with
  | String "." r =>
      match lex_digits1 r with
      | Some (ds, r') => Some (String "." ds, r')
      | None => None
      end
  | _ => Some ("", s)
  end.

Definition lex_exp (s : string) : option (string * string) :=
  match s with
  | String e r =>
      if one_of "eE" e then
        let (sign, r1) :=
          match r with
          | String g r' => if one_of "+-" g then (String g "", r') else ("", r)
          | EmptyString => ("", r)
          end in
        match lex_digits1 r1 with
        | Some (ds, r2) => Some (String e sign ++ ds, r2)
        | None => None
        end
      else Some ("", s)
  | EmptyString => Some ("", s)
  end.

Definition lex_number (s : string) : option (string * string) :=
  let (minus, s0) :=
    match s with
    | String "-" r => ("-", r)
    | _ => ("", s)
    end in
  match lex_int s0 with
  | None => None
  | Some (i, s1) =>
      match lex_frac s1 with
      | None => None
      | Some (f, s2) =>
          match lex_exp s2 with
          | None => None
          | Some (e, s3) => Some (minus ++ i ++ f ++ e, s3)
          end
      end
  end.

Definition hex4 (a b c d : ascii) : option nat :=
  match hex_value a, hex_value b, hex_value c, hex_value d with
  | Some w, Some x, Some y, Some z => Some (4096 * w + 256 * x + 16 * y + z)%nat
  | _, _, _, _ => None
  end.

Definition utf8 (n : nat) : string :=
  if (n <? 128)%nat then String (ascii_of_nat n) ""
  else if (n <? 2048)%nat then
    String (ascii_of_nat (192 + n / 64)) (String (ascii_of_nat (128 + n mod 64)) "")
  else
    String (ascii_of_nat (224 + n / 4096))
      (String (ascii_of_nat (128 + (n / 64) mod 64))
         (String (ascii_of_nat (128 + n mod 64)) "")).

Definition unescape (c : ascii) : option ascii :=
  match c with
  | "034"%char => Some "034"%char
  | "\"%char => Some "\"%char
  | "/"%char => Some "/"%char
  | "b"%char => Some "008"%char
  | "f"%char => Some "012"%char
  | "n"%char => Some "010"%char
  | "r"%char => Some "013"%char
  | "t"%char => Some "009"%char
  | _ => None
  end.

(** The characters of a string literal after its opening quote, up to and
    including the closing one. *)
Fixpoint lex_string (s : string) : option (string * string) :=
  match s with
  | EmptyString => None
  | String c r =>
      if is_char "034" c then Some ("", r)
      else if is_char "\" c then
        match r with
        | String "u" (String h1 (String h2 (String h3 (String h4 r')))) =>
            match hex4 h1 h2 h3 h4, lex_string r' with
            | Some n, Some (t, rest) => Some (utf8 n ++ t, rest)
            | _, _ => None
            end
        | String e r' =>
            match unescape e, lex_string r' with
            | Some x, Some (t, rest) => Some (String x t, rest)
            | _, _ => None
            end
        | EmptyString => None
        end
      else if (code c <? 32)%nat then None
      else
        match lex_string r with
        | Some (t, rest) => Some (String c t, rest)
        | None => None
        end
  end.

Fixpoint parse_value (fuel : nat) (s : string) : option (json * string) :=
  match fuel with
  | O => None
  | S fuel' =>
      match skip_ws s with
      | EmptyString => None
      | String c r as s0 =>
          if is_char "n" c then expect "ull" JNull r
          else if is_char "t" c then expect "rue" (JBool true) r
          else if is_char "f" c then expect "alse" (JBool false) r
          else if is_char "034" c then
            match lex_string r with
            | Some (t, rest) => Some (JString t, rest)
            | None => None
            end
          else if is_char "[" c then
            match skip_ws r with
            | String "]" rest => Some (JArray [], rest)
            | _ => parse_elements fuel' r []
            end
          else if is_char "{" c then
            match skip_ws r with
            | String "}" rest => Some (JObject [], rest)
            | _ => parse_members fuel' r []
            end
          else
            match lex_number s0 with
            | Some (lit, rest) => Some (JNumber lit, rest)
            | None => None
            end
      end
  end

with parse_elements (fuel : nat) (s : string) (acc : list json) : option (json * string) :=
  match fuel with
  | O => None
  | S fuel' =>
      match parse_value fuel' s with
      | None => None
      | Some (v, r) =>
          match skip_ws r with
          | String "," r' => parse_elements fuel' r' (acc ++ [v])%list
          | String "]" r' => Some (JArray (acc ++ [v])%list, r')
          | _ => None
          end
      end
  end

with parse_members (fuel : nat) (s : string) (acc : list (string * json)) : option (json * string) :=
  match fuel with
  | O => None
  | S fuel' =>
      match skip_ws s with
      | String "034" r =>
          match lex_string r with
          | None => None
          | Some (k, r1) =>
              match skip_ws r1 with
              | String ":" r2 =>
                  match parse_value fuel' r2 with
                  | None => None
                  | Some (v, r3) =>
                      match skip_ws r3 with
                      | String "," r4 => parse_members fuel' r4 (acc ++ [(k, v)])%list
                      | String "}" r4 => Some (JObject (acc ++ [(k, v)])%list, r4)
                      | _ => None
                      end
                  end
              | _ => None
              end
          end
      | _ => None
      end
  end.

(** [JSON.parse]: [None] is the [SyntaxError] it throws. *)
Definition JSON_parse (text : string) : option json :=
  match parse_value (2 * String.length text + 2) text with
  | Some (v, rest) =>
      match skip_ws rest with
      | EmptyString => Some v
      | _ => None
      end
  | None => None
  end.

Definition escape_char (c : ascii) : string :=
  if is_char "034" c then String "\" (String "034" "")
  else if is_char "\" c then "\\"
  else if is_char "008" c then "\b"
  else if is_char "012" c then "\f"
  else if is_char "010" c then "\n"
  else if is_char "013" c then "\r"
  else if is_char "009" c then "\t"
  else if (code c <? 32)%nat then
    "\u00" ++ String (to_lower (hex_digit (code c / 16))) (String (to_lower (hex_digit (code c mod 16))) "")
  else String c "".

Fixpoint quote_body (s : string) : string :=
  match s with
  | EmptyString => ""
  | String c r => escape_char c ++ quote_body r
  end.

Definition quote (s : string) : string :=
  String "034" (quote_body s ++ String "034" "").

(** [JSON.stringify] of a JSON value (no indentation); a number is written
    as its literal. *)
Fixpoint JSON_stringify (v : json) : string :=
  match v with
  | JNull => "null"
  | JBool true => "true"
  | JBool false => "false"
  | JNumber lit => lit
  | JString s => quote s
  | JArray items =>
      "[" ++ join "," (map JSON_stringify items) ++ "]"
  | JObject members =>
      "{" ++ join "," (map (fun kv => quote (fst kv) ++ ":" ++ JSON_stringify (snd kv)) members) ++ "}"
  end.

(** Truthiness of a JSON value, as tested by [v ? a : b] and [v || d]. *)
Definition nonzero_literal (lit : string) : bool :=
  existsb (between 49 57)
    (list_ascii_of_string (fst (cut (one_of "eE") lit))).

Definition truthy (v : json) : bool :=
  match v with
  | JNull => false
  | JBool b => b
  | JNumber lit => nonzero_literal lit
  | JString s => negb (s =? "")
  | JArray _ | JObject _ => true
  end.

(** [v.key]: the outer [None] is the [TypeError] thrown when a property of
    [null] is read, the inner [None] is [undefined].  Of the members of an
    object with the same key the parser keeps the last. *)
Fixpoint last_member (key : string) (members : list (string * json)) : option json :=
  match members with
  | [] => None
  | (k, v) :: r =>
      match last_member key r with
      | Some v' => Some v'
      | None => if k =? key then Some v else None
      end
  end.

Definition get (v : json) (key : string) : option (option json) :=
  match v with
  | JNull => None
  | JObject members => Some (last_member key members)
  | _ => Some None
  end.

(** [a || b] on an optional string. *)
Definition or_string (a : option string) (b : string) : string :=
  match a with
  | Some s => if s =? "" then b else s
  | None => b
  end.

(** ** [URL] and [URLSearchParams]

    The part of the URL Standard for [http:] and [https:] URLs: an
    absolute URL is [scheme://host[:port]] followed by an optional path,
    query and fragment, and a relative reference is resolved against a base
    of that form.  Hosts are made of letters, digits, [-], [.] and an
    optional port; credentials, other schemes, IPv6 literals and
    internationalised names are outside this model, for which [URL_new]
    returns [None], as it does where the constructor throws a
    [TypeError]. *)

Record URL : Type := mkURL {
  protocol : string;
  host : string;
  path : list string;
  query : option string;
  fragment : option string }.

Definition is_slash : ascii -> bool := one_of "/\".

Definition is_c0_or_space (c : ascii) : bool := (code c <=? 32)%nat.

Definition is_tab_or_newline : ascii -> bool :=
  one_of (String "009" (String "010" (String "013" ""))).

Fixpoint remove_chars (p : ascii -> bool) (s : string) : string :=
  match s with
  | EmptyString => ""
  | String c r => if p c then remove_chars p r else String c (remove_chars p r)
  end.

Fixpoint trim_start (s : string) : string :=
  match s with
  | EmptyString => ""
  | String c r => if is_c0_or_space c then trim_start r else s
  end.

Fixpoint trim_end (s : string) : string :=
  match s with
  | EmptyString => ""
  | String c r =>
      match trim_end r with
      | EmptyString => if is_c0_or_space c then "" else String c ""
      | r' => String c r'
      end
  end.

Definition clean (s : string) : string :=
  remove_chars is_tab_or_newline (trim_end (trim_start s)).

Definition in_path_set (c : ascii) : bool :=
  (code c <=? 32)%nat || (126 <? code c)%nat || is_char "034" c || one_of "#<>?`{}" c.

Definition in_query_set (c : ascii) : bool :=
  (code c <=? 32)%nat || (126 <? code c)%nat || is_char "034" c || one_of "#<>'" c.

Definition in_fragment_set (c : ascii) : bool :=
  (code c <=? 32)%nat || (126 <? code c)%nat || is_char "034" c || one_of "<>`" c.

Definition is_single_dot (seg : string) : bool :=
  existsb (String.eqb (lowercase seg)) ["."; "%2e"].

Definition is_double_dot (seg : string) : bool :=
  existsb (String.eqb (lowercase seg)) [".."; ".%2e"; "%2e."; "%2e%2e"].

(** The path state of the parser: [segs] are the pieces of the input
    between slashes, appended one by one to [path]. *)
Fixpoint path_state (path : list string) (segs : list string) : list string :=
  match segs with
  | [] => path
  | seg :: rest =>
      let last := match rest with [] => true | _ => false end in
      let path' :=
        if is_double_dot seg then
          (if last then removelast path ++ [""] else removelast path)%list
        else if is_single_dot seg then
          (if last then path ++ [""] else path)%list
        else (path ++ [percent_encode in_path_set seg])%list in
      path_state path' rest
  end.

(** An input cut into what precedes the query, the query and the
    fragment. *)
Definition split3 (s : string) : string * option string * option string :=
  let (before, frag) := cut (is_char "#") s in
  let (p, q) := cut (is_char "?") before in
  (p, option_map (percent_encode in_query_set) q,
   option_map (percent_encode in_fragment_set) frag).

Definition is_scheme_char (c : ascii) : bool := is_alnum c || one_of "+-." c.

(** The scheme of an input that starts with one, in lower case, and what
    follows the colon. *)
Definition scheme_of (s : string) : option (string * string) :=
  match s with
  | String c _ =>
      if is_lower c || is_upper c then
        match span is_scheme_char s with
        | (sch, String ":" rest) => Some (lowercase sch, rest)
        | _ => None
        end
      else None
  | EmptyString => None
  end.

Definition is_host_char (c : ascii) : bool := is_alnum c || one_of "-.:" c.

Definition default_port (scheme : string) : string :=
  if scheme =? "https" then ":443" else ":80".

Definition strip_default_port (scheme h : string) : string :=
  let (name, port) := cut (is_char ":") h in
  match port with
  | Some p => if String ":" p =? default_port scheme then name else h
  | None => h
  end.

(** What follows [scheme:] in an absolute URL, or [//] in a
    scheme-relative reference. *)
Definition authority_and_path (scheme rest : string) : option URL :=
  let '(p, q, f) := split3 rest in
  let (h, tail) := span (fun c => negb (is_slash c)) p in
  if (h =? "") || negb (forallb is_host_char (list_ascii_of_string h)) then None
  else
    let segs := split_at is_slash (match tail with String _ r => r | EmptyString => "" end) in
    Some (mkURL (scheme ++ ":") (strip_default_port scheme (lowercase h))
            (path_state [] segs) q f).

Definition parse_absolute (s : string) : option URL :=
  match scheme_of s with
  | Some (sch, rest) =>
      if ((sch =? "http") || (sch =? "https")) && starts_with "//" rest
      then authority_and_path sch (drop 2 rest)
      else None
  | None => None
  end.

Definition scheme_name (b : URL) : string :=
  fst (cut (is_char ":") (protocol b)).

(** A relative reference resolved against the base [b]. *)
Definition relative (s : string) (b : URL) : option URL :=
  let '(p, q, f) := split3 s in
  match p with
  | EmptyString =>
      match q with
      | None => Some (mkURL (protocol b) (host b) (path b) (query b) f)
      | Some _ => Some (mkURL (protocol b) (host b) (path b) q f)
      end
  | String c r =>
      if is_slash c then
        match r with
        | String c2 r2 =>
            if is_slash c2 then authority_and_path (scheme_name b) (drop 2 s)
            else Some (mkURL (protocol b) (host b) (path_state [] (split_at is_slash r)) q f)
        | EmptyString =>
            Some (mkURL (protocol b) (host b) (path_state [] (split_at is_slash r)) q f)
        end
      else
        Some (mkURL (protocol b) (host b)
                (path_state (removelast (path b)) (split_at is_slash p)) q f)
  end.

(** [new URL(input, base)]. *)
Definition URL_new (input base : string) : option URL :=
  match parse_absolute (clean base) with
  | None => None
  | Some b =>
      let s := clean input in
      match scheme_of s with
      | Some _ => parse_absolute s
      | None => relative s b
      end
  end.

Definition origin (u : URL) : string := protocol u ++ "//" ++ host u.

Definition pathname (u : URL) : string := "/" ++ join "/" (path u).

(** [url.toString()]. *)
Definition URL_toString (u : URL) : string :=
  origin u ++ pathname u
  ++ match query u with Some q => "?" ++ q | None => "" end
  ++ match fragment u with Some f => "#" ++ f | None => "" end.

(** The [application/x-www-form-urlencoded] serialiser and parser behind
    [url.searchParams]. *)
Definition is_form_safe (c : ascii) : bool := is_alnum c || one_of "*-._" c.

Fixpoint form_encode (s : string) : string :=
  match s with
  | EmptyString => ""
  | String c r =>
      (if is_char " " c then "+"
       else if is_form_safe c then String c ""
       else percent_byte c) ++ form_encode r
  end.

Definition form_serialize (l : list (string * string)) : string :=
  join "&" (map (fun kv => form_encode (fst kv) ++ "=" ++ form_encode (snd kv)) l).

Fixpoint plus_to_space (s : string) : string :=
  match s with
  | EmptyString => ""
  | String c r => String (if is_char "+" c then " "%char else c) (plus_to_space r)
  end.

Definition form_decode (s : string) : string := percent_decode (plus_to_space s).

Definition form_parse (q : string) : list (string * string) :=
  flat_map
    (fun piece =>
       if piece =? "" then []
       else
         let (k, v) := cut (is_char "=") piece in
         [(form_decode k, form_decode (match v with Some x => x | None => "" end))])
    (split_at (is_char "&") q).

Definition remove_key (key : string) (l : list (string * string)) : list (string * string) :=
  filter (fun kv => negb (fst kv =? key)) l.

Fixpoint set_param (key value : string) (l : list (string * string)) : list (string * string) :=
  match l with
  | [] => [(key, value)]
  | (k, v) :: r =>
      if k =? key then (key, value) :: remove_key key r
      else (k, v) :: set_param key value r
  end.

(** [url.searchParams.set(key, value)]. *)
Definition searchParams_set (key value : string) (u : URL) : URL :=
  let params := form_parse (match query u with Some q => q | None => "" end) in
  mkURL (protocol u) (host u) (path u)
    (Some (form_serialize (set_param key value params))) (fragment u).

(** ** Thrown values and promises *)

Inductive Thrown : Type :=
| ErrorObject (message : string)
| OtherValue.

Inductive Settled (A : Type) : Type :=
| Resolved (value : A)
| Rejected (reason : Thrown).

Arguments Resolved {A} value.
Arguments Rejected {A} reason.

End JS.

(* ====================================================================== *)
(** * The Effect runtime *)
(* ====================================================================== *)

(** An effect is run by one fiber against a world [W].  It ends in success,
    in a typed failure, or in a defect (an exception that escaped the
    program); or the fiber parks on a transaction that cannot commit yet
    ([Blocked]), from which only another fiber can wake it. *)

Module Effect.

Inductive Exit (E A : Type) : Type :=
| Success (value : A)
| Failure (error : E)
| Die (defect : string)
| Blocked.

Arguments Success {E A} value.
Arguments Failure {E A} error.
Arguments Die {E A} defect.
Arguments Blocked {E A}.

Definition Effect (W E A : Type) : Type := W -> Exit E A * W.

(** The clock service of the runtime: what a sleep does to the world. *)
Class Clock (W : Type) : Type := { elapse : Q -> W -> W }.

Section Combinators.

Context {W E : Type}.

Definition succeed {A} (a : A) : Effect W E A := fun w => (Success a, w).

Definition fail {A} (e : E) : Effect W E A := fun w => (Failure e, w).

Definition die {A} (defect : string) : Effect W E A := fun w => (Die defect, w).

Definition void : Effect W E unit := succeed tt.

(** [Effect.Do]: the empty scope a pipeline starts from. *)
Definition Do : Effect W E unit := succeed tt.

Definition flatMap {A B} (f : A -> Effect W E B) (self : Effect W E A) : Effect W E B :=
  fun w =>
    match self w with
    | (Success a, w') => f a w'
    | (Failure e, w') => (Failure e, w')
    | (Die d, w') => (Die d, w')
    | (Blocked, w') => (Blocked, w')
    end.

Definition map {A B} (f : A -> B) (self : Effect W E A) : Effect W E B :=
  flatMap (fun a => succeed (f a)) self.

(** [Effect.tap]: runs [f] for its effect and keeps the value. *)
Definition tap {A B} (f : A -> Effect W E B) (self : Effect W E A) : Effect W E A :=
  flatMap (fun a => map (fun _ => a) (f a)) self.

Definition zipRight {A B} (that : Effect W E B) (self : Effect W E A) : Effect W E B :=
  flatMap (fun _ => that) self.

(** [Effect.ensuring]: the finalizer runs once the effect has ended,
    however it ended; a parked fiber has not ended. *)
Definition ensuring {A} (finalizer : W -> W) (self : Effect W E A) : Effect W E A :=
  fun w =>
    match self w with
    | (Blocked, w') => (Blocked, w')
    | (exit, w') => (exit, finalizer w')
    end.

(** [Effect.tryPromise({ try, catch })]. *)
Definition tryPromise {A} (promise : W -> JS.Settled A * W) (catch : JS.Thrown -> E)
  : Effect W E A :=
  fun w =>
    match promise w with
    | (JS.Resolved a, w') => (Success a, w')
    | (JS.Rejected reason, w') => (Failure (catch reason), w')
    end.

Definition sleep `{Clock W} (ms : Q) : Effect W E unit :=
  fun w => (Success tt, elapse ms w).

(** [Effect.retry({ times, schedule, while })]: after a typed failure the
    schedule is asked whether to recur.  It recurs while [while] holds of
    the error and fewer than [times] recurrences were made; the fiber
    then sleeps for the delay the schedule gives to this recurrence and
    runs the effect again.  Otherwise the last error is the failure.
    Defects are not retried. *)
Record RetryOptions : Type := {
  times : nat;
  schedule : nat -> Q;
  while : E -> bool }.

Fixpoint retry_loop `{Clock W} {A} (options : RetryOptions) (left recurrence : nat)
    (self : Effect W E A) : Effect W E A :=
  fun w =>
    match self w with
    | (Failure e, w') =>
        match left with
        | O => (Failure e, w')
        | S left' =>
            if while options e
            then retry_loop options left' (S recurrence) self
                   (elapse (schedule options recurrence) w')
            else (Failure e, w')
        end
    | other => other
    end.

Definition retry `{Clock W} {A} (options : RetryOptions) (self : Effect W E A)
  : Effect W E A :=
  retry_loop options (times options) 0 self.

End Combinators.

Arguments RetryOptions : clear implicits.

End Effect.

Module Duration.
(** Durations are counted in milliseconds, which need not be whole. *)
Definition millis (n : Q) : Q := n.
Definition seconds (n : Q) : Q := (1000 * n)%Q.
End Duration.

Module Schedule.
(** [Schedule.exponential(base)]: the n-th recurrence (from 0) is delayed
    by [base * 2^n]. *)
Definition exponential (base : Q) (recurrence : nat) : Q :=
  (base * inject_Z (2 ^ Z.of_nat recurrence))%Q.
End Schedule.

Module Option.
Definition isSome {A} (o : option A) : bool :=
  match o with Some _ => true | None => false end.
(** The value, or the absent value when there is none. *)
Definition getOrNull {A} (o : option A) : option A := o.
End Option.

Import Effect.

Declare Scope effect_scope.
Delimit Scope effect_scope with effect.
Notation "x <- c1 ;; c2" := (flatMap (fun x => c2) c1)
  (at level 61, c1 at next level, right associativity) : effect_scope.

(* ====================================================================== *)
(** * The world of the client *)
(* ====================================================================== *)

Inductive HttpMethod : Type := GET | POST | PATCH | DELETE.

Record RequestInit : Type := {
  init_method : HttpMethod;
  init_headers : list (string * string);
  init_signal : Z;               (* AbortSignal.timeout(ms) *)
  init_body : option string }.

(** What the fibers do that can be seen from outside them, in the order
    in which it happens. *)
Inductive Event : Type :=
| EvAcquire (n : Z)              (* permits taken from the semaphore *)
| EvRelease (n : Z)              (* permits given to the semaphore *)
| EvFetch (url : string) (init : RequestInit)
| EvSleep (ms : Q).

Record World : Type := {
  permits : Z;                   (* the permits of the limiter's semaphore *)
  daemons : list Q;              (* refill fibers running, by their interval *)
  fetched : nat;                 (* network calls made so far *)
  trace : list Event }.

Definition log (ev : Event) (w : World) : World :=
  {| permits := permits w; daemons := daemons w; fetched := fetched w;
     trace := (trace w ++ [ev])%list |}.

Definition set_permits (p : Z) (w : World) : World :=
  {| permits := p; daemons := daemons w; fetched := fetched w; trace := trace w |}.

Definition fork_refill (interval : Q) (w : World) : World :=
  {| permits := permits w; daemons := (daemons w ++ [interval])%list;
     fetched := fetched w; trace := trace w |}.

Definition count_fetch (w : World) : World :=
  {| permits := permits w; daemons := daemons w; fetched := S (fetched w);
     trace := trace w |}.

(** A sleep of the fiber whose run is followed.  The refill fibers are not
    run by it: their turns are the steps of [limiter_step] below, taken
    beside this fiber, and they only add permits.  What is said of the
    permit count after a run that sleeps is therefore a lower bound. *)
#[global] Instance World_Clock : Clock World := {| elapse ms w := log (EvSleep ms) w |}.

(* ====================================================================== *)
(** * [TSemaphore] *)
(* ====================================================================== *)

(** The semaphore is a transactional counter of permits; each operation is
    one transaction.  A transaction that retries parks the fiber. *)

Module TSemaphore.

(** [TSemaphore.make(permits)]. *)
Definition make (n : Z) (w : World) : World := set_permits n w.

(** The transaction of [acquireN]: it retries while fewer than [n]
    permits are there, else takes them. *)
Definition acquireN_txn (n : Z) (available : Z) : option Z :=
  if (available <? n)%Z then None else Some (available - n)%Z.

(** The transaction of [releaseN]: it adds [n] permits, whatever the
    count is. *)
Definition releaseN_txn (n : Z) (available : Z) : Z := (available + n)%Z.

Definition acquireN {E} (n : Z) : Effect World E unit :=
  fun w =>
    match acquireN_txn n (permits w) with
    | None => (Blocked, w)
    | Some p => (Success tt, log (EvAcquire n) (set_permits p w))
    end.

Definition release_now (n : Z) (w : World) : World :=
  log (EvRelease n) (set_permits (releaseN_txn n (permits w)) w).

Definition releaseN {E} (n : Z) : Effect World E unit :=
  fun w => (Success tt, release_now n w).

(** [withPermits(n)(self)]: take [n] permits, run [self], and give the
    permits back when [self] has ended. *)
Definition withPermits {E A} (n : Z) (self : Effect World E A) : Effect World E A :=
  zipRight (ensuring (release_now n) self) (acquireN n).

Definition withPermit {E A} (self : Effect World E A) : Effect World E A :=
  withPermits 1 self.

End TSemaphore.

(* ====================================================================== *)
(** * API error types (operations module) *)
(* ====================================================================== *)

(** [NotionErrorCode]: each constructor is the code's string. *)
Inductive NotionErrorCode : Type :=
| invalid_json
| invalid_request_url
| invalid_request
| validation_error
| missing_version
| unauthorized
| restricted_resource
| object_not_found
| conflict_error
| rate_limited
| internal_server_error
| service_unavailable
| database_connection_unavailable
| gateway_timeout.

Definition NotionErrorCode_values : list NotionErrorCode :=
  [invalid_json; invalid_request_url; invalid_request; validation_error;
   missing_version; unauthorized; restricted_resource; object_not_found;
   conflict_error; rate_limited; internal_server_error; service_unavailable;
   database_connection_unavailable; gateway_timeout].

Definition code_string (c : NotionErrorCode) : string :=
  match c with
  | invalid_json => "invalid_json"
  | invalid_request_url => "invalid_request_url"
  | invalid_request => "invalid_request"
  | validation_error => "validation_error"
  | missing_version => "missing_version"
  | unauthorized => "unauthorized"
  | restricted_resource => "restricted_resource"
  | object_not_found => "object_not_found"
  | conflict_error => "conflict_error"
  | rate_limited => "rate_limited"
  | internal_server_error => "internal_server_error"
  | service_unavailable => "service_unavailable"
  | database_connection_unavailable => "database_connection_unavailable"
  | gateway_timeout => "gateway_timeout"
  end.

Module NotionError.

Record t : Type := make {
  status : Z;
  code : NotionErrorCode;
  message : string;
  requestId : option string }.

(** The schema of the fields, checked by the constructor:
    [Schema.Literal(...Object.values(NotionErrorCode))], [Schema.String]
    and [Schema.optional(Schema.String)].  A property is [None] when it is
    [undefined]. *)
Definition literal (v : option JS.json) : option NotionErrorCode :=
  match v with
  | Some (JS.JString s) =>
      find (fun c => code_string c =? s) NotionErrorCode_values
  | _ => None
  end.

Definition string_ (v : option JS.json) : option string :=
  match v with
  | Some (JS.JString s) => Some s
  | _ => None
  end.

Definition optional_string (v : option JS.json) : option (option string) :=
  match v with
  | None => Some None
  | Some (JS.JString s) => Some (Some s)
  | Some _ => None
  end.

(** [new NotionError({ status, code, message, requestId })] with a numeric
    status: [None] is the [ParseError] thrown when a property does not
    satisfy the schema. *)
Definition new (status : Z) (code message requestId : option JS.json) : option t :=
  match literal code, string_ message, optional_string requestId with
  | Some c, Some m, Some r => Some (make status c m r)
  | _, _, _ => None
  end.

End NotionError.

(* ====================================================================== *)
(** * Pagination types and request options (operations module) *)
(* ====================================================================== *)

(** [PaginatedList<T>], with the fields the traversal reads. *)
Record PaginatedList (T : Type) : Type := {
  results : list T;
  next_cursor : option string;
  has_more : bool }.

Arguments results {T} _.
Arguments next_cursor {T} _.
Arguments has_more {T} _.

(** [UUID] (core types): a string with a nominal brand, which is not
    checked when a value is made; the identifiers meant are of the form
    [110e8400-e29b-11d4-a716-446655440000]. *)
Definition UUID : Type := string.

(** The values a query record can hold. *)
Inductive QueryValue : Type :=
| QString (s : string)
| QNumber (n : Z)
| QBoolean (b : bool)
| QUndefined
| QNull.

(** [String(value)]. *)
Definition String_ (v : QueryValue) : string :=
  match v with
  | QString s => s
  | QNumber n => JS.string_of_Z n
  | QBoolean true => "true"
  | QBoolean false => "false"
  | QUndefined => "undefined"
  | QNull => "null"
  end.

Record RequestOptions : Type := {
  method : HttpMethod;
  path : string;
  body : option JS.json;
  query : option (list (string * QueryValue)) }.

Record HttpClient (W : Type) : Type := {
  request : RequestOptions -> Effect W NotionError.t JS.json }.

Arguments request {W} _ _.

Module Response.

Record t : Type := {
  status : Z;
  statusText : string;
  body : JS.Settled string }.   (* what reading the body gives *)

Definition ok (r : t) : bool := (200 <=? status r)%Z && (status r <=? 299)%Z.

Definition text (r : t) : World -> JS.Settled string * World :=
  fun w => (body r, w).

End Response.

(** A [fetch] function: what the n-th network call of the world (from 0)
    settles to, given the URL and the request. *)
Definition FetchFn : Type := nat -> string -> RequestInit -> JS.Settled Response.t.

Record NotionClientConfig : Type := {
  auth : string;
  notionVersion : option string;
  baseURL : option string;
  timeoutMs : option Z;
  fetch : option FetchFn }.

(* ====================================================================== *)
(** * Rate limiter ([internal/sdk.ts]) *)
(* ====================================================================== *)

Record RateLimiterService : Type := {
  acquire : forall E : Type, Effect World E unit }.

Definition refillInterval (requestsPerSecond : Q) : Q := (1000 / requestsPerSecond)%Q.

(** One turn of the refill fiber's loop. *)
Definition refill_cycle {E} (interval : Q) : Effect World E unit :=
  (_ <- sleep (Duration.millis interval) ;;
   TSemaphore.releaseN 1)%effect.

(** [createRateLimiter(requestsPerSecond, burst)]: makes the semaphore,
    forks the refill fiber (which then runs [refill_cycle] forever) and
    returns the service. *)
Definition createRateLimiter {E} (requestsPerSecond : Q) (burst : Z)
  : Effect World E RateLimiterService :=
  fun w =>
    let w1 := TSemaphore.make burst w in
    let w2 := fork_refill (refillInterval requestsPerSecond) w1 in
    (Success {| acquire := fun E => TSemaphore.withPermit void |}, w2).

(** The default of the parameter [burst]. *)
Definition default_burst : Z := 10.

(** The limiter among concurrent fibers.  A configuration is the world and
    the number of callers inside [acquire], between taking their permit and
    giving it back.  Each step is one transaction of one fiber. *)
Inductive limiter_step : World * nat -> World * nat -> Prop :=
| step_refill w inside interval w' :
    In interval (daemons w) ->
    refill_cycle (E := Empty_set) interval w = (Success tt, w') ->
    limiter_step (w, inside) (w', inside)
| step_take w inside w' :
    TSemaphore.acquireN (E := Empty_set) 1 w = (Success tt, w') ->
    limiter_step (w, inside) (w', S inside)
| step_give w inside :
    limiter_step (w, S inside) (TSemaphore.release_now 1 w, inside).

Inductive limiter_steps : World * nat -> World * nat -> Prop :=
| steps_refl c : limiter_steps c c
| steps_then c1 c2 c3 : limiter_steps c1 c2 -> limiter_step c2 c3 -> limiter_steps c1 c3.

(** The configurations a limiter made with this rate and burst can be in. *)
Definition limiter_reachable (requestsPerSecond : Q) (burst : Z) (c : World * nat) : Prop :=
  exists w0, limiter_steps
    (snd (createRateLimiter (E := Empty_set) requestsPerSecond burst w0), O) c.

(* ====================================================================== *)
(** * HTTP client ([internal/sdk.ts]) *)
(* ====================================================================== *)

(** The body of [createHttpClient(config)]: its inner functions close over
    the configuration, the rate limiter taken from the context, and the
    platform's own [fetch]. *)

Module Pipeline.

Section WithConfig.

Variable global_fetch : FetchFn.
Variable config : NotionClientConfig.
Variable rateLimiter : RateLimiterService.

(** [buildHeaders(contentType?)]. *)
Definition buildHeaders (contentType : option string) : list (string * string) :=
  let headers :=
    [("Authorization", "Bearer " ++ auth config);
     ("Notion-Version", JS.or_string (notionVersion config) "2022-06-28")] in
  match contentType with
  | Some ct => if ct =? "" then headers else (headers ++ [("Content-Type", ct)])%list
  | None => headers
  end.

(** [buildURL(path, query?)]: [None] is the [TypeError] of [new URL]. *)
Definition buildURL (path : string) (query : option (list (string * QueryValue)))
  : option string :=
  let baseURL := JS.or_string (baseURL config) "https://api.notion.com/v1" in
  match JS.URL_new path baseURL with
  | None => None
  | Some url =>
      let url :=
        match query with
        | Some entries =>
            fold_left
              (fun url entry =>
                 match snd entry with
                 | QUndefined | QNull => url
                 | value => JS.searchParams_set (fst entry) (String_ value) url
                 end)
              entries url
        | None => url
        end in
      Some (JS.URL_toString url)
  end.

(** [parseResponse(response)]. *)
Definition parseResponse (response : Response.t) : Effect World NotionError.t JS.json :=
  (text <- tryPromise (Response.text response)
             (fun _ => NotionError.make 0 internal_server_error
                         "Failed to read response body" None) ;;
   if negb (Response.ok response) then
     (* try { ... } catch { ... }: the block throws when the text is not
        JSON, when a property of [null] is read, and when the error's
        constructor rejects the properties.  A failure yielded inside it
        ends the generator, which is not resumed: [catch] sees only what
        is thrown.  The code after the [if] is reached by success
        statuses alone. *)
     match
       match JS.JSON_parse text with
       | None => None
       | Some error =>
           match JS.get error "code", JS.get error "message", JS.get error "request_id" with
           | Some code, Some message, Some request_id =>
               NotionError.new (Response.status response) code message request_id
           | _, _, _ => None
           end
       end
     with
     | Some e => fail e
     | None =>
         fail (NotionError.make (Response.status response) internal_server_error
                 (JS.or_string (Some text) (Response.statusText response)) None)
     end
   else
     match JS.JSON_parse text with
     | Some value => succeed value
     | None =>
         fail (NotionError.make (Response.status response) invalid_json
                 "Invalid JSON response" None)
     end)%effect.

Definition fetchFn : FetchFn :=
  match fetch config with
  | Some f => f
  | None => global_fetch
  end.

(** The [RequestInit] the request is sent with. *)
Definition requestInit (options : RequestOptions) : RequestInit :=
  let has_body :=
    match body options with
    | Some b => JS.truthy b
    | None => false
    end in
  {| init_method := method options;
     init_headers := buildHeaders (if has_body then Some "application/json" else None);
     init_signal :=
       match timeoutMs config with
       | Some ms => if (ms =? 0)%Z then 30000%Z else ms
       | None => 30000%Z
       end;
     init_body :=
       match body options with
       | Some b => if JS.truthy b then Some (JS.JSON_stringify b) else None
       | None => None
       end |}.

(** The network call: the world counts it and records it. *)
Definition call_fetch (url : string) (init : RequestInit)
  : World -> JS.Settled Response.t * World :=
  fun w => (fetchFn (fetched w) url init, count_fetch (log (EvFetch url init) w)).

(** One attempt: everything [Effect.retry] is applied to. *)
Definition attempt (options : RequestOptions) : Effect World NotionError.t JS.json :=
  flatMap
    (fun _ =>
       match buildURL (path options) (query options) with
       | None => die "TypeError: Invalid URL"
       | Some url =>
           let init := requestInit options in
           (response <- tryPromise (call_fetch url init)
                          (fun error =>
                             NotionError.make 0 internal_server_error
                               match error with
                               | JS.ErrorObject message => message
                               | JS.OtherValue => "Network error"
                               end None) ;;
            parseResponse response)%effect
       end)
    (tap (fun _ => acquire rateLimiter NotionError.t) Do).

Definition retryable (error : NotionError.t) : bool :=
  (code_string (NotionError.code error) =? "rate_limited")
  || (code_string (NotionError.code error) =? "internal_server_error")
  || (code_string (NotionError.code error) =? "service_unavailable")
  || (code_string (NotionError.code error) =? "gateway_timeout").

(** [request(options)]. *)
Definition request (options : RequestOptions) : Effect World NotionError.t JS.json :=
  retry
    {| times := 3;
       schedule := Schedule.exponential (Duration.seconds 1);
       while := retryable |}
    (attempt options).

End WithConfig.

End Pipeline.

Definition createHttpClient (global_fetch : FetchFn) (config : NotionClientConfig)
    (rateLimiter : RateLimiterService) : HttpClient World :=
  {| request := Pipeline.request global_fetch config rateLimiter |}.

(* ====================================================================== *)
(** * Notion client ([internal/sdk.ts]) *)
(* ====================================================================== *)

(** [a || {}] on an optional request object. *)
Definition or_empty (request : option JS.json) : JS.json :=
  match request with
  | Some r => if JS.truthy r then r else JS.JObject []
  | None => JS.JObject []
  end.

Module databases.
Definition retrieve {W} (http : HttpClient W) (id : UUID) :=
  request http
    {| method := GET; path := "/v1/databases/" ++ id; body := None; query := None |}.

Definition create {W} (http : HttpClient W) (req : JS.json) :=
  request http
    {| method := POST; path := "/v1/databases"; body := Some req; query := None |}.

Definition update {W} (http : HttpClient W) (id : UUID) (req : JS.json) :=
  request http
    {| method := PATCH; path := "/v1/databases/" ++ id; body := Some req; query := None |}.

Definition query {W} (http : HttpClient W) (id : UUID) (req : option JS.json) :=
  request http
    {| method := POST; path := "/v1/databases/" ++ id ++ "/query";
       body := Some (or_empty req); query := None |}.
End databases.

Module pages.
Definition retrieve {W} (http : HttpClient W) (id : UUID) :=
  request http
    {| method := GET; path := "/v1/pages/" ++ id; body := None; query := None |}.

Definition create {W} (http : HttpClient W) (req : JS.json) :=
  request http
    {| method := POST; path := "/v1/pages"; body := Some req; query := None |}.

Definition update {W} (http : HttpClient W) (id : UUID) (req : JS.json) :=
  request http
    {| method := PATCH; path := "/v1/pages/" ++ id; body := Some req; query := None |}.
End pages.

Module blocks.
Definition retrieve {W} (http : HttpClient W) (id : UUID) :=
  request http
    {| method := GET; path := "/v1/blocks/" ++ id; body := None; query := None |}.

Definition update {W} (http : HttpClient W) (id : UUID) (req : JS.json) :=
  request http
    {| method := PATCH; path := "/v1/blocks/" ++ id; body := Some req; query := None |}.

Definition delete {W} (http : HttpClient W) (id : UUID) :=
  request http
    {| method := DELETE; path := "/v1/blocks/" ++ id; body := None; query := None |}.

Module children.
Definition list {W} (http : HttpClient W) (id : UUID)
    (params : option (Datatypes.list (string * QueryValue))) :=
  request http
    {| method := GET; path := "/v1/blocks/" ++ id ++ "/children"; body := None;
       query := params |}.

Definition append {W} (http : HttpClient W) (id : UUID) (req : JS.json) :=
  request http
    {| method := PATCH; path := "/v1/blocks/" ++ id ++ "/children"; body := Some req;
       query := None |}.
End children.
End blocks.

Module users.
Definition retrieve {W} (http : HttpClient W) (id : UUID) :=
  request http
    {| method := GET; path := "/v1/users/" ++ id; body := None; query := None |}.

Definition list {W} (http : HttpClient W)
    (params : option (Datatypes.list (string * QueryValue))) :=
  request http
    {| method := GET; path := "/v1/users"; body := None; query := params |}.

Definition me {W} (http : HttpClient W) :=
  request http
    {| method := GET; path := "/v1/users/me"; body := None; query := None |}.
End users.

Definition search {W} (http : HttpClient W) (params : option JS.json) :=
  request http
    {| method := POST; path := "/v1/search"; body := Some (or_empty params); query := None |}.

Module comments.
Definition create {W} (http : HttpClient W) (req : JS.json) :=
  request http
    {| method := POST; path := "/v1/comments"; body := Some req; query := None |}.

Definition list {W} (http : HttpClient W) (params : Datatypes.list (string * QueryValue)) :=
  request http
    {| method := GET; path := "/v1/comments"; body := None; query := Some params |}.
End comments.

(** [NotionClientLayer(config)]: the client over the HTTP client over a
    limiter made by [createRateLimiter(3, 10)]. *)
Definition NotionClientLayer (global_fetch : FetchFn) (config : NotionClientConfig)
  : Effect World NotionError.t (HttpClient World) :=
  map (createHttpClient global_fetch config) (createRateLimiter 3 10).

(* ====================================================================== *)
(** * Pagination helper (operations module) *)
(* ====================================================================== *)

Section FetchAllPages.

Context {W T : Type}.
Variable fetchPage : option string -> Effect W NotionError.t (PaginatedList T).

(** The recursion has no bound of its own: [fuel] bounds the pages the
    model follows, and [None] is a traversal still running when it is
    spent. *)
Fixpoint fetchRecursive (fuel : nat) (cursor : option string) (accumulated : list T)
  : W -> option (Exit NotionError.t (list T) * W) :=
  fun w =>
    match fuel with
    | O => None
    | S fuel' =>
        match fetchPage cursor w with
        | (Success response, w') =>
            let newAccumulated := (accumulated ++ results response)%list in
            if has_more response && Option.isSome (next_cursor response)
            then fetchRecursive fuel' (Option.getOrNull (next_cursor response))
                   newAccumulated w'
            else Some (Success newAccumulated, w')
        | (Failure e, w') => Some (Failure e, w')
        | (Die d, w') => Some (Die d, w')
        | (Blocked, w') => Some (Blocked, w')
        end
    end.

Definition fetchAllPages (fuel : nat) : W -> option (Exit NotionError.t (list T) * W) :=
  fetchRecursive fuel None [].

End FetchAllPages.

(* ====================================================================== *)
(** * Functional helpers (operations module) *)
(* ====================================================================== *)

(** [RichText] (core types), with the fields common to its variants; the
    annotations and the payload of each variant are left out. *)
Record RichText : Type := {
  rich_type : string;
  plain_text : string;
  href : option string }.

(** [extractPlainText(richText)]: the plain texts, joined by the empty
    string. *)
Definition extractPlainText (richText : list RichText) : string :=
  JS.join "" (List.map plain_text richText).

(* ====================================================================== *)
(** * Definitions used to state the properties *)
(* ====================================================================== *)

(** What an attempt makes of the settled network call: a rejection is the
    transport failure, a response goes through [parseResponse]. *)
Definition settle (r : JS.Settled Response.t) : Effect World NotionError.t JS.json :=
  match r with
  | JS.Rejected reason =>
      fail (NotionError.make 0 internal_server_error
              match reason with
              | JS.ErrorObject message => message
              | JS.OtherValue => "Network error"
              end None)
  | JS.Resolved response => Pipeline.parseResponse response
  end.

(** The network call [r] makes its attempt fail with [e]. *)
Definition fails_with (r : JS.Settled Response.t) (e : NotionError.t) : Prop :=
  forall w, settle r w = (Failure e, w).

(** The codes the retry policy names. *)
Definition transient_codes : list NotionErrorCode :=
  [rate_limited; internal_server_error; service_unavailable; gateway_timeout].

(** The world after one attempt that got as far as the network call. *)
Definition after_attempt (url : string) (init : RequestInit) (w : World) : World :=
  count_fetch
    (log (EvFetch url init)
       (TSemaphore.release_now 1
          (log (EvAcquire 1) (set_permits (permits w - 1) w)))).

(** The events of one such attempt. *)
Definition attempt_events (url : string) (init : RequestInit) : list Event :=
  [EvAcquire 1; EvRelease 1; EvFetch url init].

(** An HTTP client that only records the options it is given. *)
Definition recorder : HttpClient (list RequestOptions) :=
  {| request := fun options sent => (Success JS.JNull, (sent ++ [options])%list) |}.

(** The structured error payload of a body, as the pipeline accepts it: a
    JSON object whose [code] is one of the error codes, whose [message] is
    a string and whose [request_id] is absent or a string. *)
Definition error_payload (text : string)
  : option (NotionErrorCode * string * option string) :=
  match JS.JSON_parse text with
  | Some (JS.JObject members) =>
      match JS.last_member "code" members, JS.last_member "message" members with
      | Some (JS.JString c), Some (JS.JString m) =>
          match find (fun k => code_string k =? c) NotionErrorCode_values with
          | Some k =>
              match JS.last_member "request_id" members with
              | None => Some (k, m, None)
              | Some (JS.JString r) => Some (k, m, Some r)
              | Some _ => None
              end
          | None => None
          end
      | _, _ => None
      end
  | _ => None
  end.

(** The [status] member of a JSON body, when it is an object that has
    one. *)
Definition payload_status (text : string) : option JS.json :=
  match JS.JSON_parse text with
  | Some (JS.JObject members) => JS.last_member "status" members
  | _ => None
  end.

Section Traversal.

Context {W T : Type}.
Variable fetchPage : option string -> Effect W NotionError.t (PaginatedList T).

(** [visited c w pages c' w']: from cursor [c] in world [w], the fetch
    function returns [pages] one after the other, each saying that there
    is more and giving the cursor of the next call; [c'] and [w'] are the
    cursor and the world of the call that follows them. *)
Inductive visited : option string -> W -> list (PaginatedList T) -> option string -> W -> Prop :=
| visited_nil c w : visited c w [] c w
| visited_cons c w page w1 c1 pages c2 w2 :
    fetchPage c w = (Success page, w1) ->
    has_more page = true ->
    next_cursor page = Some c1 ->
    visited (Some c1) w1 pages c2 w2 ->
    visited c w (page :: pages) c2 w2.

(** The fetch function with a record of the cursors it is called
    with. *)
Definition counted (cursor : option string)
  : Effect (W * list (option string)) NotionError.t (PaginatedList T) :=
  fun wl =>
    let (exit, w') := fetchPage cursor (fst wl) in
    (exit, (w', (snd wl ++ [cursor])%list)).

End Traversal.

(** The cursors of the calls that return [pages], the first of which is
    made with [c]. *)
Fixpoint calls_for {T} (c : option string) (pages : list (PaginatedList T))
  : list (option string) :=
  match pages with
  | [] => []
  | page :: rest => c :: calls_for (next_cursor page) rest
  end.

(** A fetch function that answers from a script, one exit per call,
    whatever the cursor. *)
Definition scripted {T} (cursor : option string)
  : Effect (list (Exit NotionError.t (PaginatedList T))) NotionError.t (PaginatedList T) :=
  fun script =>
    match script with
    | exit :: rest => (exit, rest)
    | [] => (Die "no answer left", [])
    end.

(** The calls a client makes of the facade. *)
Inductive Call : Type :=
| databases_retrieve (id : UUID)
| databases_create (req : JS.json)
| databases_update (id : UUID) (req : JS.json)
| databases_query (id : UUID) (req : option JS.json)
| pages_retrieve (id : UUID)
| pages_create (req : JS.json)
| pages_update (id : UUID) (req : JS.json)
| blocks_retrieve (id : UUID)
| blocks_update (id : UUID) (req : JS.json)
| blocks_delete (id : UUID)
| blocks_children_list (id : UUID) (params : option (list (string * QueryValue)))
| blocks_children_append (id : UUID) (req : JS.json)
| users_retrieve (id : UUID)
| users_list (params : option (list (string * QueryValue)))
| users_me
| search_ (params : option JS.json)
| comments_create (req : JS.json)
| comments_list (params : list (string * QueryValue)).

Definition perform {W} (http : HttpClient W) (c : Call) : Effect W NotionError.t JS.json :=
  match c with
  | databases_retrieve id => databases.retrieve http id
  | databases_create req => databases.create http req
  | databases_update id req => databases.update http id req
  | databases_query id req => databases.query http id req
  | pages_retrieve id => pages.retrieve http id
  | pages_create req => pages.create http req
  | pages_update id req => pages.update http id req
  | blocks_retrieve id => blocks.retrieve http id
  | blocks_update id req => blocks.update http id req
  | blocks_delete id => blocks.delete http id
  | blocks_children_list id params => blocks.children.list http id params
  | blocks_children_append id req => blocks.children.append http id req
  | users_retrieve id => users.retrieve http id
  | users_list params => users.list http params
  | users_me => users.me http
  | search_ params => search http params
  | comments_create req => comments.create http req
  | comments_list params => comments.list http params
  end.

(** The identifier a call is made with, when it has one. *)
Definition id_of (c : Call) : UUID :=
  match c with
  | databases_retrieve id | databases_update id _ | databases_query id _
  | pages_retrieve id | pages_update id _
  | blocks_retrieve id | blocks_update id _ | blocks_delete id
  | blocks_children_list id _ | blocks_children_append id _
  | users_retrieve id => id
  | _ => ""
  end.

Fixpoint all_chars (p : ascii -> bool) (s : string) : bool :=
  match s with
  | EmptyString => true
  | String c r => p c && all_chars p r
  end.

(** The characters of a UUID, with or without its hyphens. *)
Definition is_uuid_char (c : ascii) : bool := JS.is_alnum c || JS.is_char "-" c.

(** The characters of the facade's paths. *)
Definition is_path_char (c : ascii) : bool := is_uuid_char c || JS.is_char "/" c.

(** The world after [n] turns of the refill loop. *)
Fixpoint refilled (interval : Q) (n : nat) (w : World) : World :=
  match n with
  | O => w
  | S n' => TSemaphore.release_now 1 (log (EvSleep interval) (refilled interval n' w))
  end.

(** What [buildURL] does with one entry of the query record. *)
Definition set_query_entry (url : JS.URL) (entry : string * QueryValue) : JS.URL :=
  match snd entry with
  | QUndefined | QNull => url
  | value => JS.searchParams_set (fst entry) (String_ value) url
  end.

(** The service [createRateLimiter] returns. *)
Definition semaphore_limiter : RateLimiterService :=
  {| acquire := fun E => TSemaphore.withPermit void |}.

(** The network call [r] makes its attempt succeed with [v]. *)
Definition succeeds_with (r : JS.Settled Response.t) (v : JS.json) : Prop :=
  forall w, settle r w = (Success v, w).

(** A network call that did not bring a readable response: the call was
    rejected, or the body of the response could not be read. *)
Definition transport_failure (r : JS.Settled Response.t) : Prop :=
  (exists reason, r = JS.Rejected reason)
  \/ (exists response reason,
         r = JS.Resolved response /\ Response.body response = JS.Rejected reason).

Definition is_sleep (ev : Event) : bool :=
  match ev with EvSleep _ => true | _ => false end.


(** How many events of a kind a trace holds. *)
Definition count_events (kind : Event -> bool) (tr : list Event) : nat :=
  length (filter kind tr).

(** Requests made one after the other by one fiber: their exits, in order,
    and the world they leave. *)
Fixpoint run_all (http : HttpClient World) (requests : list RequestOptions) (w : World)
  : list (Exit NotionError.t JS.json) * World :=
  match requests with
  | [] => ([], w)
  | options :: rest =>
      let (exit, w1) := request http options w in
      let (exits, w2) := run_all http rest w1 in
      (exit :: exits, w2)
  end.

(** The entries of a query record that hold a value. *)
Definition is_set (entry : string * QueryValue) : bool :=
  match snd entry with
  | QUndefined | QNull => false
  | _ => true
  end.

(** The names and values [buildURL] sets as search parameters. *)
Definition query_pairs (entries : list (string * QueryValue)) : list (string * string) :=
  List.map (fun entry => (fst entry, String_ (snd entry))) (filter is_set entries).

(** The query string of a URL with these search parameters. *)
Definition query_suffix (pairs : list (string * string)) : string :=
  match pairs with
  | [] => ""
  | _ => "?" ++ JS.form_serialize pairs
  end.

(** The characters that separate names and values in a query string. *)
Definition is_separator (c : ascii) : bool := JS.is_char "&" c || JS.is_char "=" c.

(** The query string of a URL, empty when it has none. *)
Definition query_text (u : JS.URL) : string :=
  match JS.query u with Some q => q | None => "" end.

(** ** Sample inputs *)

Module Sample.

Definition config : NotionClientConfig :=
  {| auth := "secret_token"; notionVersion := None; baseURL := None;
     timeoutMs := None; fetch := None |}.

(** A configuration whose base URL has a path prefix of its own. *)
Definition proxied : NotionClientConfig :=
  {| auth := "secret_token"; notionVersion := None;
     baseURL := Some "https://proxy.example.com/notion/v1";
     timeoutMs := None; fetch := None |}.

Definition empty_world : World :=
  {| permits := 0; daemons := []; fetched := 0; trace := [] |}.

(** The world in which [createRateLimiter(3, 10)] has just run. *)
Definition world : World :=
  {| permits := 10; daemons := [refillInterval 3]; fetched := 0; trace := [] |}.

Definition respond (status : Z) (statusText text : string) : FetchFn :=
  fun _ _ _ =>
    JS.Resolved {| Response.status := status; Response.statusText := statusText;
                   Response.body := JS.Resolved text |}.

(** The text of an error payload, as the service writes it. *)
Definition error_body (status code message : string) : string :=
  JS.JSON_stringify
    (JS.JObject [("object", JS.JString "error"); ("status", JS.JNumber status);
                 ("code", JS.JString code); ("message", JS.JString message)]).

Definition rate_limited_body : string := error_body "429" "rate_limited" "slow down".

Definition not_found_body : string :=
  JS.JSON_stringify
    (JS.JObject [("object", JS.JString "error"); ("status", JS.JNumber "404");
                 ("code", JS.JString "object_not_found");
                 ("message", JS.JString "no such page");
                 ("request_id", JS.JString "r-1")]).

Definition always_rate_limited : FetchFn :=
  respond 429 "Too Many Requests" rate_limited_body.

Definition always_not_found : FetchFn := respond 404 "Not Found" not_found_body.

Definition always_not_json : FetchFn := respond 200 "OK" "not json".

Definition id : UUID := "8f1c2a9e-7b3d-4c5f-9a10-2e6d4b7c8a91".

Definition retrieve_page : RequestOptions :=
  {| method := GET; path := "/v1/pages/" ++ id; body := None; query := None |}.

Definition retrieve_page_url : string :=
  "https://api.notion.com/v1/pages/8f1c2a9e-7b3d-4c5f-9a10-2e6d4b7c8a91".

(** A body that is not JSON, and a JSON error payload whose [status]
    member differs from the status of the response that carries it. *)
Definition bad_gateway : Response.t :=
  {| Response.status := 502; Response.statusText := "Bad Gateway";
     Response.body := JS.Resolved "" |}.

Definition mismatched_body : string := error_body "400" "validation_error" "bad".

Definition mismatched : Response.t :=
  {| Response.status := 404; Response.statusText := "Not Found";
     Response.body := JS.Resolved mismatched_body |}.

Definition first_page : PaginatedList string :=
  {| results := ["A"; "B"]; next_cursor := Some "x"; has_more := true |}.

Definition second_page : PaginatedList string :=
  {| results := ["C"]; next_cursor := None; has_more := false |}.

Definition unavailable : NotionError.t :=
  NotionError.make 503 service_unavailable "try later" None.

(** A configuration whose base URL is not a URL. *)
Definition unreachable : NotionClientConfig :=
  {| auth := "secret_token"; notionVersion := None; baseURL := Some "not a url";
     timeoutMs := None; fetch := None |}.

(** The network is down: every call is rejected. *)
Definition offline : FetchFn :=
  fun _ _ _ => JS.Rejected (JS.ErrorObject "connection refused").

(** The service is busy at the first call and answers from the second. *)
Definition recovering : FetchFn :=
  fun n url init =>
    match n with
    | O => always_rate_limited n url init
    | S _ => respond 200 "OK" (JS.JSON_stringify (JS.JObject [("object", JS.JString "page")]))
               n url init
    end.

Definition page_json : JS.json := JS.JObject [("object", JS.JString "page")].

(** The service is busy at the first call and does not know the page from
    the second. *)
Definition limited_then_gone : FetchFn :=
  fun n url init =>
    match n with
    | O => always_rate_limited n url init
    | S _ => always_not_found n url init
    end.

(** A service that always says there is more. *)
Definition endless (cursor : option string)
  : Effect unit NotionError.t (PaginatedList string) :=
  fun w => (Success first_page, w).

Definition list_users : RequestOptions :=
  {| method := GET; path := "/v1/users"; body := None;
     query := Some [("start_cursor", QString "a b&c=d"); ("filter", QNull);
                    ("page_size", QNumber 100)] |}.

End Sample.

(* ====================================================================== *)
(** * Properties of the rate limiter *)
(* ====================================================================== *)

Lemma createRateLimiter_service rps burst (w0 : World) (limiter : RateLimiterService) :
  fst (createRateLimiter (E := NotionError.t) rps burst w0) = Success limiter ->
  limiter = semaphore_limiter.
Proof.
  unfold createRateLimiter. cbn. intros H. injection H as <-. reflexivity.
Qed.

Lemma withPermit_void E (w : World) :
  (1 <= permits w)%Z ->
  TSemaphore.withPermit (E := E) void w
  = (Success tt,
     TSemaphore.release_now 1 (log (EvAcquire 1) (set_permits (permits w - 1) w))).
Proof.
  intros Hp.
  unfold TSemaphore.withPermit, TSemaphore.withPermits, zipRight, flatMap,
    TSemaphore.acquireN, TSemaphore.acquireN_txn.
  destruct (Z.ltb_spec (permits w) 1) as [Hlt | _]; [lia |].
  reflexivity.
Qed.

(** C2 (as the code behaves): a completed [acquire] leaves the permit count
    as it found it, because the caller itself gives the permit back; its two
    transactions are the only events. *)
Theorem acquire_gives_its_permit_back (rps : Q) (burst : Z) (w0 w : World)
    (limiter : RateLimiterService) :
  fst (createRateLimiter (E := NotionError.t) rps burst w0) = Success limiter ->
  (1 <= permits w)%Z ->
  exists w',
    acquire limiter NotionError.t w = (Success tt, w')
    /\ permits w' = permits w
    /\ trace w' = (trace w ++ [EvAcquire 1; EvRelease 1])%list.
Proof.
  intros Hl Hp. apply createRateLimiter_service in Hl. subst limiter.
  cbn [acquire semaphore_limiter]. rewrite withPermit_void by exact Hp.
  eexists. split; [reflexivity |]. split.
  - cbn. unfold TSemaphore.releaseN_txn. lia.
  - cbn. rewrite <- app_assoc. reflexivity.
Qed.

Lemma acquire_gives_its_permit_back_witness :
  exists w',
    acquire semaphore_limiter NotionError.t Sample.world = (Success tt, w')
    /\ permits w' = permits Sample.world
    /\ trace w' = (trace Sample.world ++ [EvAcquire 1; EvRelease 1])%list.
Proof.
  apply (acquire_gives_its_permit_back 3 10 Sample.empty_world Sample.world
           semaphore_limiter).
  - reflexivity.
  - cbn. lia.
Defined.

Lemma refill_cycle_run E interval (w : World) :
  refill_cycle (E := E) interval w
  = (Success tt, TSemaphore.release_now 1 (log (EvSleep interval) w)).
Proof. reflexivity. Qed.

Lemma refilled_permits interval n w :
  permits (refilled interval n w) = (permits w + Z.of_nat n)%Z.
Proof.
  induction n as [| n IH]; cbn [refilled].
  - cbn. lia.
  - cbn. unfold TSemaphore.releaseN_txn. cbn in IH. rewrite IH. lia.
Qed.

Lemma refilled_daemons interval n w :
  daemons (refilled interval n w) = daemons w.
Proof. induction n as [| n IH]; cbn; [reflexivity | exact IH]. Qed.

Lemma refilled_steps interval n (w : World) inside :
  In interval (daemons w) ->
  limiter_steps (w, inside) (refilled interval n w, inside).
Proof.
  intros Hin. induction n as [| n IH]; cbn [refilled].
  - apply steps_refl.
  - eapply steps_then; [exact IH |].
    eapply step_refill with (interval := interval).
    + rewrite refilled_daemons. exact Hin.
    + apply refill_cycle_run.
Qed.

(** C3 (as the code behaves): the refill fiber adds a permit on every turn
    whatever the count is, so that after [n] turns with no acquire the
    limiter holds [burst + n] permits; a state with more than [burst]
    permits is reachable. *)
Theorem refill_is_not_capped (rps : Q) (burst : Z) :
  (forall n : nat,
      exists w, limiter_reachable rps burst (w, O)
                /\ permits w = (burst + Z.of_nat n)%Z)
  /\ exists w, limiter_reachable rps burst (w, O) /\ (burst < permits w)%Z.
Proof.
  assert (Hn : forall n : nat,
             exists w, limiter_reachable rps burst (w, O)
                       /\ permits w = (burst + Z.of_nat n)%Z).
  { intros n.
    set (w0 := {| permits := 0; daemons := []; fetched := 0; trace := [] |}).
    set (w1 := snd (createRateLimiter (E := Empty_set) rps burst w0)).
    exists (refilled (refillInterval rps) n w1). split.
    - exists w0. apply refilled_steps. subst w1 w0. cbn. left. reflexivity.
    - rewrite refilled_permits. reflexivity. }
  split; [exact Hn |].
  destruct (Hn 1%nat) as [w [Hr Hp]]. exists w. split; [exact Hr | lia].
Qed.

(* ====================================================================== *)
(** * Properties of the HTTP pipeline *)
(* ====================================================================== *)

Section PipelineFacts.

Variable global_fetch : FetchFn.
Variable config : NotionClientConfig.

Lemma parseResponse_world response w :
  snd (Pipeline.parseResponse response w) = w.
Proof.
  unfold Pipeline.parseResponse, flatMap, tryPromise, Response.text.
  destruct (Response.body response); cbn; [| reflexivity].
  destruct (negb (Response.ok response)).
  - match goal with |- snd (match ?x with _ => _ end w) = w => destruct x end;
      reflexivity.
  - destruct (JS.JSON_parse value); reflexivity.
Qed.

Lemma settle_world r w : snd (settle r w) = w.
Proof. destruct r; cbn; [apply parseResponse_world | reflexivity]. Qed.

Lemma after_attempt_permits url init w :
  permits (after_attempt url init w) = permits w.
Proof. cbn. unfold TSemaphore.releaseN_txn. lia. Qed.

Lemma after_attempt_fetched url init w :
  fetched (after_attempt url init w) = S (fetched w).
Proof. reflexivity. Qed.

Lemma after_attempt_trace url init w :
  trace (after_attempt url init w) = (trace w ++ attempt_events url init)%list.
Proof. cbn. rewrite <- !app_assoc. reflexivity. Qed.

(** One attempt: a permit is taken and given back, the call is made, and
    what it settles to decides the exit. *)
Lemma attempt_run options url w :
  (1 <= permits w)%Z ->
  Pipeline.buildURL config (path options) (query options) = Some url ->
  Pipeline.attempt global_fetch config semaphore_limiter options w
  = settle (Pipeline.fetchFn global_fetch config (fetched w) url
              (Pipeline.requestInit config options))
      (after_attempt url (Pipeline.requestInit config options) w).
Proof.
  intros Hp Hu.
  unfold Pipeline.attempt, tap, Do, map.
  unfold flatMap at 1. unfold flatMap at 1. unfold succeed at 1.
  unfold flatMap at 1. cbn [acquire semaphore_limiter].
  rewrite withPermit_void by exact Hp.
  unfold succeed at 1. rewrite Hu.
  unfold flatMap, tryPromise, Pipeline.call_fetch.
  cbn [fetched log set_permits TSemaphore.release_now].
  unfold settle, after_attempt.
  destruct (Pipeline.fetchFn global_fetch config (fetched w) url
              (Pipeline.requestInit config options)) as [response | reason].
  - reflexivity.
  - reflexivity.
Qed.

Lemma attempt_fails options url w e :
  (1 <= permits w)%Z ->
  Pipeline.buildURL config (path options) (query options) = Some url ->
  fails_with (Pipeline.fetchFn global_fetch config (fetched w) url
                (Pipeline.requestInit config options)) e ->
  Pipeline.attempt global_fetch config semaphore_limiter options w
  = (Failure e, after_attempt url (Pipeline.requestInit config options) w).
Proof.
  intros Hp Hu Hf. rewrite (attempt_run options url w Hp Hu). apply Hf.
Qed.

Lemma retryable_transient e :
  Pipeline.retryable e = true <-> In (NotionError.code e) transient_codes.
Proof.
  unfold Pipeline.retryable, transient_codes.
  destruct (NotionError.code e); cbn; split; intros H;
    try discriminate; try reflexivity; intuition congruence.
Qed.

End PipelineFacts.

Section RetryFacts.

Context {W E A : Type} `{Clock W}.
Variable options : RetryOptions E.
Variable self : Effect W E A.

Lemma retry_loop_again left recurrence w e w' :
  self w = (Failure e, w') ->
  while options e = true ->
  retry_loop options (S left) recurrence self w
  = retry_loop options left (S recurrence) self (elapse (schedule options recurrence) w').
Proof. intros Hs Hw. cbn [retry_loop]. rewrite Hs, Hw. reflexivity. Qed.

Lemma retry_loop_refused left recurrence w e w' :
  self w = (Failure e, w') ->
  while options e = false ->
  retry_loop options left recurrence self w = (Failure e, w').
Proof.
  intros Hs Hw. destruct left; cbn [retry_loop]; rewrite Hs; [| rewrite Hw]; reflexivity.
Qed.

Lemma retry_loop_exhausted recurrence w e w' :
  self w = (Failure e, w') ->
  retry_loop options 0 recurrence self w = (Failure e, w').
Proof. intros Hs. cbn [retry_loop]. rewrite Hs. reflexivity. Qed.

Lemma retry_loop_success left recurrence w a w' :
  self w = (Success a, w') ->
  retry_loop options left recurrence self w = (Success a, w').
Proof. intros Hs. destruct left; cbn [retry_loop]; rewrite Hs; reflexivity. Qed.

End RetryFacts.

Lemma sleep_permits ms (w : World) : permits (elapse ms w) = permits w.
Proof. reflexivity. Qed.

Lemma sleep_fetched ms (w : World) : fetched (elapse ms w) = fetched w.
Proof. reflexivity. Qed.

Lemma sleep_trace ms (w : World) : trace (elapse ms w) = (trace w ++ [EvSleep ms])%list.
Proof. reflexivity. Qed.

(** C1: when every network call fails with an error whose code is
    [rate_limited], [internal_server_error], [service_unavailable] or
    [gateway_timeout], [request] makes exactly four attempts, sleeping 1 s,
    2 s and 4 s between them, and then fails with the error of the
    fourth. *)
Theorem request_retries_transient_failures
    (global_fetch : FetchFn) (config : NotionClientConfig) (rps : Q) (burst : Z)
    (w0 : World) (limiter : RateLimiterService)
    (options : RequestOptions) (url : string) (w : World) :
  fst (createRateLimiter (E := NotionError.t) rps burst w0) = Success limiter ->
  (1 <= permits w)%Z ->
  Pipeline.buildURL config (path options) (query options) = Some url ->
  (forall n, exists e,
      fails_with (Pipeline.fetchFn global_fetch config n url
                    (Pipeline.requestInit config options)) e
      /\ In (NotionError.code e) transient_codes) ->
  exists e w',
    request (createHttpClient global_fetch config limiter) options w = (Failure e, w')
    /\ fails_with (Pipeline.fetchFn global_fetch config (3 + fetched w)%nat url
                     (Pipeline.requestInit config options)) e
    /\ fetched w' = (4 + fetched w)%nat
    /\ trace w'
       = (trace w
          ++ attempt_events url (Pipeline.requestInit config options)
          ++ [EvSleep 1000]
          ++ attempt_events url (Pipeline.requestInit config options)
          ++ [EvSleep 2000]
          ++ attempt_events url (Pipeline.requestInit config options)
          ++ [EvSleep 4000]
          ++ attempt_events url (Pipeline.requestInit config options))%list.
Proof.
  intros Hl Hp Hu Hall.
  apply createRateLimiter_service in Hl. subst limiter.
  set (init := Pipeline.requestInit config options) in *.
  set (self := Pipeline.attempt global_fetch config semaphore_limiter options).
  set (opts := {| times := 3;
                  schedule := Schedule.exponential (Duration.seconds 1);
                  while := Pipeline.retryable |}).
  assert (Hstep : forall v, (1 <= permits v)%Z ->
            exists e, fails_with (Pipeline.fetchFn global_fetch config (fetched v) url init) e
                      /\ Pipeline.retryable e = true
                      /\ self v = (Failure e, after_attempt url init v)).
  { intros v Hv. destruct (Hall (fetched v)) as [e [Hf Hc]].
    exists e. split; [exact Hf |]. split; [apply retryable_transient; exact Hc |].
    apply attempt_fails; assumption. }
  destruct (Hstep w Hp) as [e1 [_ [Hr1 Ha1]]].
  set (w1 := elapse (schedule opts 0) (after_attempt url init w)).
  assert (Hp1 : (1 <= permits w1)%Z).
  { subst w1. rewrite sleep_permits, after_attempt_permits. exact Hp. }
  destruct (Hstep w1 Hp1) as [e2 [_ [Hr2 Ha2]]].
  set (w2 := elapse (schedule opts 1) (after_attempt url init w1)).
  assert (Hp2 : (1 <= permits w2)%Z).
  { subst w2. rewrite sleep_permits, after_attempt_permits. exact Hp1. }
  destruct (Hstep w2 Hp2) as [e3 [_ [Hr3 Ha3]]].
  set (w3 := elapse (schedule opts 2) (after_attempt url init w2)).
  assert (Hp3 : (1 <= permits w3)%Z).
  { subst w3. rewrite sleep_permits, after_attempt_permits. exact Hp2. }
  destruct (Hstep w3 Hp3) as [e4 [Hf4 [_ Ha4]]].
  assert (Hn3 : fetched w3 = (3 + fetched w)%nat).
  { subst w3 w2 w1.
    rewrite !sleep_fetched, !after_attempt_fetched, !sleep_fetched, !after_attempt_fetched.
    reflexivity. }
  exists e4, (after_attempt url init w3).
  split; [| split; [| split]].
  - change (request (createHttpClient global_fetch config semaphore_limiter) options w)
      with (retry_loop opts 3 0 self w).
    rewrite (retry_loop_again opts self 2 0 w e1 _ Ha1 Hr1).
    rewrite (retry_loop_again opts self 1 1 w1 e2 _ Ha2 Hr2).
    rewrite (retry_loop_again opts self 0 2 w2 e3 _ Ha3 Hr3).
    apply (retry_loop_exhausted opts self 3 w3 e4 _ Ha4).
  - rewrite <- Hn3. exact Hf4.
  - rewrite after_attempt_fetched, Hn3. reflexivity.
  - rewrite after_attempt_trace. subst w3.
    rewrite sleep_trace, after_attempt_trace. subst w2.
    rewrite sleep_trace, after_attempt_trace. subst w1.
    rewrite sleep_trace, after_attempt_trace.
    rewrite <- !app_assoc. reflexivity.
Qed.

(** An attempt that fails with an error the policy does not name ends the
    request. *)
Lemma request_fails_once
    (global_fetch : FetchFn) (config : NotionClientConfig) (rps : Q) (burst : Z)
    (w0 : World) (limiter : RateLimiterService)
    (options : RequestOptions) (url : string) (w : World) (e : NotionError.t) :
  fst (createRateLimiter (E := NotionError.t) rps burst w0) = Success limiter ->
  (1 <= permits w)%Z ->
  Pipeline.buildURL config (path options) (query options) = Some url ->
  fails_with (Pipeline.fetchFn global_fetch config (fetched w) url
                (Pipeline.requestInit config options)) e ->
  ~ In (NotionError.code e) transient_codes ->
  exists w',
    request (createHttpClient global_fetch config limiter) options w = (Failure e, w')
    /\ fetched w' = S (fetched w)
    /\ trace w'
       = (trace w ++ attempt_events url (Pipeline.requestInit config options))%list.
Proof.
  intros Hl Hp Hu Hf Hc.
  apply createRateLimiter_service in Hl. subst limiter.
  exists (after_attempt url (Pipeline.requestInit config options) w).
  split; [| split].
  - unfold createHttpClient, request, Pipeline.request, retry.
    apply retry_loop_refused.
    + apply attempt_fails; assumption.
    + cbn [while]. destruct (Pipeline.retryable e) eqn:Hr; [| reflexivity].
      apply retryable_transient in Hr. contradiction.
  - apply after_attempt_fetched.
  - apply after_attempt_trace.
Qed.

(** C6: when the network call of the first attempt fails with an error
    whose code is none of the four transient codes, [request] fails with
    that very error after this one attempt: nothing is retried and no sleep
    is made. *)
Theorem request_does_not_retry_other_failures
    (global_fetch : FetchFn) (config : NotionClientConfig) (rps : Q) (burst : Z)
    (w0 : World) (limiter : RateLimiterService)
    (options : RequestOptions) (url : string) (w : World) (e : NotionError.t) :
  fst (createRateLimiter (E := NotionError.t) rps burst w0) = Success limiter ->
  (1 <= permits w)%Z ->
  Pipeline.buildURL config (path options) (query options) = Some url ->
  fails_with (Pipeline.fetchFn global_fetch config (fetched w) url
                (Pipeline.requestInit config options)) e ->
  ~ In (NotionError.code e) transient_codes ->
  exists w',
    request (createHttpClient global_fetch config limiter) options w = (Failure e, w')
    /\ fetched w' = S (fetched w)
    /\ trace w'
       = (trace w ++ attempt_events url (Pipeline.requestInit config options))%list.
Proof.
  intros Hl Hp Hu Hf Hc.
  exact (request_fails_once global_fetch config rps burst w0 limiter options url w e
           Hl Hp Hu Hf Hc).
Qed.

(** C9: a response with a success status whose body is not JSON makes
    [parseResponse], and with it [request], fail with the typed error of
    code [invalid_json]; the exit is a failure, not a defect, and the
    request is not retried. *)
Theorem invalid_json_is_a_typed_failure
    (global_fetch : FetchFn) (config : NotionClientConfig) (rps : Q) (burst : Z)
    (w0 : World) (limiter : RateLimiterService)
    (options : RequestOptions) (url : string) (w : World)
    (response : Response.t) (text : string) :
  Response.ok response = true ->
  Response.body response = JS.Resolved text ->
  JS.JSON_parse text = None ->
  fst (createRateLimiter (E := NotionError.t) rps burst w0) = Success limiter ->
  (1 <= permits w)%Z ->
  Pipeline.buildURL config (path options) (query options) = Some url ->
  Pipeline.fetchFn global_fetch config (fetched w) url (Pipeline.requestInit config options)
  = JS.Resolved response ->
  let e := NotionError.make (Response.status response) invalid_json
             "Invalid JSON response" None in
  (forall v, Pipeline.parseResponse response v = (Failure e, v))
  /\ exists w',
       request (createHttpClient global_fetch config limiter) options w = (Failure e, w')
       /\ fetched w' = S (fetched w).
Proof.
  intros Hok Hbody Hparse Hl Hp Hu Hfetch e.
  assert (Hpr : forall v, Pipeline.parseResponse response v = (Failure e, v)).
  { intros v. unfold Pipeline.parseResponse, flatMap, tryPromise, Response.text.
    rewrite Hbody, Hok. cbn. rewrite Hparse. reflexivity. }
  split; [exact Hpr |].
  destruct (request_fails_once global_fetch config rps burst w0
              limiter options url w e Hl Hp Hu) as [w' [Hreq [Hn _]]].
  - rewrite Hfetch. intros v. apply Hpr.
  - cbn. intuition discriminate.
  - exists w'. split; assumption.
Qed.

Lemma or_string_text text fallback :
  JS.or_string (Some text) fallback = if text =? "" then fallback else text.
Proof. reflexivity. Qed.

(** C8 (amended): for a response whose status is not a success status and
    whose body was read, [parseResponse] fails.  When the body holds a
    structured error payload the error carries the status of the response
    and the payload's code, message and request id; otherwise it is an
    [internal_server_error] with the status of the response, whose message
    is the raw text or, when the text is empty, the status text. *)
Theorem parseResponse_error_of_failed_response
    (response : Response.t) (text : string) (w : World) :
  Response.ok response = false ->
  Response.body response = JS.Resolved text ->
  Pipeline.parseResponse response w
  = (Failure
       match error_payload text with
       | Some (c, m, r) => NotionError.make (Response.status response) c m r
       | None =>
           NotionError.make (Response.status response) internal_server_error
             (if text =? "" then Response.statusText response else text) None
       end, w).
Proof.
  intros Hok Hbody.
  unfold Pipeline.parseResponse, flatMap, tryPromise, Response.text.
  rewrite Hbody, Hok. cbn [negb]. rewrite or_string_text.
  unfold error_payload.
  destruct (JS.JSON_parse text) as [[| b | lit | s | items | members] |];
    try reflexivity.
  cbn [JS.get]. unfold NotionError.new, NotionError.literal, NotionError.string_,
    NotionError.optional_string.
  destruct (JS.last_member "code" members) as [[| ? | ? | c | ? | ?] |];
    try reflexivity.
  destruct (find (fun k => code_string k =? c) NotionErrorCode_values) as [k |].
  - destruct (JS.last_member "message" members) as [[| ? | ? | m | ? | ?] |];
      try reflexivity.
    destruct (JS.last_member "request_id" members) as [[| ? | ? | r | ? | ?] |];
      reflexivity.
  - destruct (JS.last_member "message" members) as [[| ? | ? | m | ? | ?] |];
      reflexivity.
Qed.

(* ====================================================================== *)
(** * Properties of the pagination helper *)
(* ====================================================================== *)

Section TraversalFacts.

Context {W T : Type}.
Variable fetchPage : option string -> Effect W NotionError.t (PaginatedList T).

(** Following the pages that say there is more costs one unit of fuel
    each and appends their results, in order. *)
Lemma fetchRecursive_visited c w pages c' w' :
  visited fetchPage c w pages c' w' ->
  forall fuel acc,
    fetchRecursive fetchPage (length pages + fuel) c acc w
    = fetchRecursive fetchPage fuel c' (acc ++ concat (List.map results pages))%list w'.
Proof.
  induction 1 as [c w | c w page w1 c1 pages c2 w2 Hf Hm Hc _ IH]; intros fuel acc.
  - cbn. rewrite app_nil_r. reflexivity.
  - cbn [length Nat.add fetchRecursive]. rewrite Hf, Hm, Hc. cbn [Option.isSome andb].
    unfold Option.getOrNull. rewrite IH. cbn [List.map concat].
    rewrite app_assoc. reflexivity.
Qed.

End TraversalFacts.

Section CountedFacts.

Context {W T : Type}.
Variable fetchPage : option string -> Effect W NotionError.t (PaginatedList T).

Lemma visited_counted c w pages c' w' :
  visited fetchPage c w pages c' w' ->
  forall l,
    visited (counted fetchPage) c (w, l) pages c' (w', (l ++ calls_for c pages)%list).
Proof.
  induction 1 as [c w | c w page w1 c1 pages c2 w2 Hf Hm Hc _ IH]; intros l.
  - cbn. rewrite app_nil_r. constructor.
  - cbn [calls_for]. eapply visited_cons with (w1 := (w1, (l ++ [c])%list)).
    + unfold counted. cbn [fst snd]. rewrite Hf. reflexivity.
    + exact Hm.
    + exact Hc.
    + rewrite Hc. specialize (IH (l ++ [c])%list).
      rewrite <- app_assoc in IH. exact IH.
Qed.

Lemma calls_for_last c (pages : list (PaginatedList T)) last :
  calls_for c (pages ++ [last]) = c :: List.map next_cursor pages.
Proof.
  revert c. induction pages as [| page pages IH]; intros c; cbn.
  - reflexivity.
  - rewrite IH. reflexivity.
Qed.

Lemma visited_next_cursor c w pages c' w' :
  visited fetchPage c w pages c' w' ->
  (c :: List.map next_cursor pages = calls_for c pages ++ [c'])%list.
Proof.
  induction 1 as [c w | c w page w1 c1 pages c2 w2 Hf Hm Hc _ IH]; cbn.
  - reflexivity.
  - rewrite Hc, <- IH, <- Hc. reflexivity.
Qed.

(** The traversal from an absent cursor over [pages], which all say there
    is more, and a [last] page which does not. *)
Lemma fetchAllPages_complete w pages c wk last w' fuel :
  visited fetchPage None w pages c wk ->
  fetchPage c wk = (Success last, w') ->
  has_more last && Option.isSome (next_cursor last) = false ->
  (length pages < fuel)%nat ->
  fetchAllPages (counted fetchPage) fuel (w, [])
  = Some (Success (concat (List.map results (pages ++ [last]))),
          (w', None :: List.map next_cursor pages)).
Proof.
  intros Hv Hf Hstop Hfuel.
  unfold fetchAllPages.
  replace fuel with (length pages + S (fuel - S (length pages)))%nat by lia.
  rewrite (fetchRecursive_visited (counted fetchPage) _ _ _ _ _
             (visited_counted None w pages c wk Hv [])).
  cbn [fetchRecursive app]. unfold counted at 1. cbn [fst snd].
  rewrite Hf, Hstop. rewrite <- (visited_next_cursor None w pages c wk Hv).
  rewrite List.map_app, concat_app. cbn [List.map concat].
  rewrite app_nil_r. reflexivity.
Qed.

(** A traversal whose fetch fails after [pages]. *)
Lemma fetchAllPages_aborted w pages c wk e w' fuel :
  visited fetchPage None w pages c wk ->
  fetchPage c wk = (Failure e, w') ->
  (length pages < fuel)%nat ->
  fetchAllPages fetchPage fuel w = Some (Failure e, w').
Proof.
  intros Hv Hf Hfuel.
  unfold fetchAllPages.
  replace fuel with (length pages + S (fuel - S (length pages)))%nat by lia.
  rewrite (fetchRecursive_visited fetchPage _ _ _ _ _ Hv).
  cbn [fetchRecursive]. rewrite Hf. reflexivity.
Qed.

End CountedFacts.

(** C4: [fetchAllPages] starts with an absent cursor and calls the fetch
    function once per page, with the cursor of the page before, as long as
    the page says there is more and gives a cursor; it returns the results
    of all the pages in the order of the calls.  In particular, for the
    pages [A, B] (cursor "x", more to come) and [C] (no cursor, nothing
    more) it returns [A, B, C] after exactly two calls. *)
Theorem fetchAllPages_returns_all_pages_in_order :
  (forall (W T : Type)
          (fetchPage : option string -> Effect W NotionError.t (PaginatedList T))
          (w : W) (pages : list (PaginatedList T)) (c : option string) (wk : W)
          (last : PaginatedList T) (w' : W) (fuel : nat),
      visited fetchPage None w pages c wk ->
      fetchPage c wk = (Success last, w') ->
      has_more last && Option.isSome (next_cursor last) = false ->
      (length pages < fuel)%nat ->
      fetchAllPages (counted fetchPage) fuel (w, [])
      = Some (Success (concat (List.map results (pages ++ [last]))),
              (w', None :: List.map next_cursor pages)))
  /\ (forall (T : Type) (A B C : T) (fuel : nat),
         (2 <= fuel)%nat ->
         fetchAllPages (counted scripted) fuel
           ([Success {| results := [A; B]; next_cursor := Some "x"; has_more := true |};
             Success {| results := [C]; next_cursor := None; has_more := false |}], [])
         = Some (Success [A; B; C], ([], [None; Some "x"]))).
Proof.
  split.
  - intros W T fetchPage w pages c wk last w' fuel.
    apply fetchAllPages_complete.
  - intros T A B C fuel Hfuel.
    apply (fetchAllPages_complete scripted _
             [{| results := [A; B]; next_cursor := Some "x"; has_more := true |}]
             (Some "x")
             [Success {| results := [C]; next_cursor := None; has_more := false |}]
             {| results := [C]; next_cursor := None; has_more := false |} [] fuel).
    + eapply visited_cons; [reflexivity | reflexivity | reflexivity | constructor].
    + reflexivity.
    + reflexivity.
    + cbn. lia.
Qed.

Lemma fetchAllPages_returns_all_pages_in_order_witness :
  fetchAllPages (counted scripted) 2
    ([Success Sample.first_page; Success Sample.second_page], [])
  = Some (Success ["A"; "B"; "C"], ([], [None; Some "x"])).
Proof.
  apply (proj1 fetchAllPages_returns_all_pages_in_order
           (list (Exit NotionError.t (PaginatedList string))) string scripted
           [Success Sample.first_page; Success Sample.second_page]
           [Sample.first_page] (Some "x") [Success Sample.second_page]
           Sample.second_page [] 2%nat).
  - eapply visited_cons; [reflexivity | reflexivity | reflexivity | constructor].
  - reflexivity.
  - reflexivity.
  - cbn. lia.
Defined.

(** C7: when the fetch of some page fails, whatever the number of pages
    fetched before it, [fetchAllPages] fails with that very error; the exit
    is the failure alone and carries none of the results gathered so
    far. *)
Theorem fetchAllPages_fails_with_the_page_failure
    (W T : Type) (fetchPage : option string -> Effect W NotionError.t (PaginatedList T))
    (w : W) (pages : list (PaginatedList T)) (c : option string) (wk : W)
    (e : NotionError.t) (w' : W) (fuel : nat) :
  visited fetchPage None w pages c wk ->
  fetchPage c wk = (Failure e, w') ->
  (length pages < fuel)%nat ->
  fetchAllPages fetchPage fuel w = Some (Failure e, w').
Proof. apply fetchAllPages_aborted. Qed.

Lemma fetchAllPages_fails_with_the_page_failure_witness :
  fetchAllPages scripted 2 [Success Sample.first_page; Failure Sample.unavailable]
  = Some (Failure Sample.unavailable, []).
Proof.
  apply (fetchAllPages_fails_with_the_page_failure
           (list (Exit NotionError.t (PaginatedList string))) string scripted
           [Success Sample.first_page; Failure Sample.unavailable]
           [Sample.first_page] (Some "x") [Failure Sample.unavailable]
           Sample.unavailable [] 2%nat).
  - eapply visited_cons; [reflexivity | reflexivity | reflexivity | constructor].
  - reflexivity.
  - cbn. lia.
Defined.

(* ====================================================================== *)
(** * The pipeline on sample inputs *)
(* ====================================================================== *)

Lemma request_retries_transient_failures_witness :
  exists e w',
    request (createHttpClient Sample.always_rate_limited Sample.config semaphore_limiter)
      Sample.retrieve_page Sample.world = (Failure e, w')
    /\ fails_with (Pipeline.fetchFn Sample.always_rate_limited Sample.config
                     (3 + fetched Sample.world)%nat Sample.retrieve_page_url
                     (Pipeline.requestInit Sample.config Sample.retrieve_page)) e
    /\ fetched w' = (4 + fetched Sample.world)%nat
    /\ trace w'
       = (trace Sample.world
          ++ attempt_events Sample.retrieve_page_url
               (Pipeline.requestInit Sample.config Sample.retrieve_page)
          ++ [EvSleep 1000]
          ++ attempt_events Sample.retrieve_page_url
               (Pipeline.requestInit Sample.config Sample.retrieve_page)
          ++ [EvSleep 2000]
          ++ attempt_events Sample.retrieve_page_url
               (Pipeline.requestInit Sample.config Sample.retrieve_page)
          ++ [EvSleep 4000]
          ++ attempt_events Sample.retrieve_page_url
               (Pipeline.requestInit Sample.config Sample.retrieve_page))%list.
Proof.
  apply (request_retries_transient_failures Sample.always_rate_limited Sample.config
           3 10 Sample.empty_world semaphore_limiter Sample.retrieve_page
           Sample.retrieve_page_url Sample.world).
  - reflexivity.
  - cbn. lia.
  - vm_compute. reflexivity.
  - intros n. exists (NotionError.make 429 rate_limited "slow down" None). split.
    + intros w. vm_compute. reflexivity.
    + cbn. left. reflexivity.
Defined.

Lemma request_does_not_retry_other_failures_witness :
  exists w',
    request (createHttpClient Sample.always_not_found Sample.config semaphore_limiter)
      Sample.retrieve_page Sample.world
    = (Failure (NotionError.make 404 object_not_found "no such page" (Some "r-1")), w')
    /\ fetched w' = S (fetched Sample.world)
    /\ trace w'
       = (trace Sample.world
          ++ attempt_events Sample.retrieve_page_url
               (Pipeline.requestInit Sample.config Sample.retrieve_page))%list.
Proof.
  apply (request_does_not_retry_other_failures Sample.always_not_found Sample.config
           3 10 Sample.empty_world semaphore_limiter Sample.retrieve_page
           Sample.retrieve_page_url Sample.world).
  - reflexivity.
  - cbn. lia.
  - vm_compute. reflexivity.
  - intros w. vm_compute. reflexivity.
  - cbn. intros [H | [H | [H | [H | []]]]]; discriminate H.
Defined.

Lemma invalid_json_is_a_typed_failure_witness :
  (forall v,
      Pipeline.parseResponse
        {| Response.status := 200; Response.statusText := "OK";
           Response.body := JS.Resolved "not json" |} v
      = (Failure (NotionError.make 200 invalid_json "Invalid JSON response" None), v))
  /\ exists w',
       request (createHttpClient Sample.always_not_json Sample.config semaphore_limiter)
         Sample.retrieve_page Sample.world
       = (Failure (NotionError.make 200 invalid_json "Invalid JSON response" None), w')
       /\ fetched w' = S (fetched Sample.world).
Proof.
  apply (invalid_json_is_a_typed_failure Sample.always_not_json Sample.config
           3 10 Sample.empty_world semaphore_limiter Sample.retrieve_page
           Sample.retrieve_page_url Sample.world
           {| Response.status := 200; Response.statusText := "OK";
              Response.body := JS.Resolved "not json" |} "not json").
  - reflexivity.
  - reflexivity.
  - vm_compute. reflexivity.
  - reflexivity.
  - cbn. lia.
  - vm_compute. reflexivity.
  - reflexivity.
Defined.

Lemma parseResponse_error_of_failed_response_witness :
  Pipeline.parseResponse Sample.mismatched Sample.world
  = (Failure (NotionError.make 404 validation_error "bad" None), Sample.world).
Proof.
  exact (parseResponse_error_of_failed_response Sample.mismatched Sample.mismatched_body
           Sample.world eq_refl eq_refl).
Defined.

(** C8 (as stated) fails twice.  A body that cannot be decoded and is empty
    gives an error whose message is the status text, not the raw text; and
    a decoded payload gives an error whose status is that of the response,
    not the one the payload states. *)
Lemma parseResponse_message_and_status_counterexample :
  (Response.ok Sample.bad_gateway = false
   /\ Response.body Sample.bad_gateway = JS.Resolved ""
   /\ JS.JSON_parse "" = None
   /\ exists e,
        Pipeline.parseResponse Sample.bad_gateway Sample.world = (Failure e, Sample.world)
        /\ NotionError.code e = internal_server_error
        /\ NotionError.message e = "Bad Gateway"
        /\ NotionError.message e <> "")
  /\ (Response.ok Sample.mismatched = false
      /\ Response.body Sample.mismatched = JS.Resolved Sample.mismatched_body
      /\ payload_status Sample.mismatched_body = Some (JS.JNumber "400")
      /\ exists e,
           Pipeline.parseResponse Sample.mismatched Sample.world = (Failure e, Sample.world)
           /\ NotionError.code e = validation_error
           /\ NotionError.status e = 404%Z
           /\ NotionError.status e <> 400%Z).
Proof.
  split.
  - split; [reflexivity |]. split; [reflexivity |]. split; [reflexivity |].
    exists (NotionError.make 502 internal_server_error "Bad Gateway" None).
    split; [vm_compute; reflexivity |]. split; [reflexivity |].
    split; [reflexivity | discriminate].
  - split; [reflexivity |]. split; [reflexivity |]. split; [vm_compute; reflexivity |].
    exists (NotionError.make 404 validation_error "bad" None).
    split; [vm_compute; reflexivity |]. split; [reflexivity |].
    split; [reflexivity | discriminate].
Qed.

(* ====================================================================== *)
(** * Properties of the facade *)
(* ====================================================================== *)

(** C5 (as stated) fails: what [blocks.delete] hands to the HTTP client is
    a [DELETE] request without a body, which no [blocks.update], whatever
    its request object, hands over; no [archived] flag is sent. *)
Lemma blocks_delete_is_no_update_counterexample :
  snd (blocks.delete recorder "b1" [])
  = [{| method := DELETE; path := "/v1/blocks/b1"; body := None; query := None |}]
  /\ snd (blocks.delete recorder "b1" [])
     <> snd (blocks.update recorder "b1" (JS.JObject [("archived", JS.JBool true)]) [])
  /\ (forall req, snd (blocks.delete recorder "b1" [])
                  <> snd (blocks.update recorder "b1" req []))
  /\ init_body (Pipeline.requestInit Sample.config
                  {| method := DELETE; path := "/v1/blocks/b1"; body := None;
                     query := None |}) = None.
Proof.
  split; [reflexivity |]. split; [discriminate |].
  split; [intros req; discriminate | reflexivity].
Qed.

(** C5 (amended): [blocks.delete] is the request of method [DELETE] on the
    path of the block, with neither body nor query; the pipeline sends it
    with that method, without a body and without a content type. *)
Theorem blocks_delete_sends_a_bodiless_DELETE (config : NotionClientConfig) (id : UUID) :
  (forall (W : Type) (http : HttpClient W),
      blocks.delete http id
      = request http
          {| method := DELETE; path := "/v1/blocks/" ++ id; body := None; query := None |})
  /\ snd (blocks.delete recorder id [])
     = [{| method := DELETE; path := "/v1/blocks/" ++ id; body := None; query := None |}]
  /\ Pipeline.requestInit config
       {| method := DELETE; path := "/v1/blocks/" ++ id; body := None; query := None |}
     = {| init_method := DELETE;
          init_headers :=
            [("Authorization", "Bearer " ++ auth config);
             ("Notion-Version", JS.or_string (notionVersion config) "2022-06-28")];
          init_signal := init_signal
                           (Pipeline.requestInit config
                              {| method := DELETE; path := "/v1/blocks/" ++ id;
                                 body := None; query := None |});
          init_body := None |}.
Proof. repeat split. Qed.

Ltac each_char c :=
  destruct c as [[] [] [] [] [] [] [] []]; vm_compute; intros;
  try discriminate; try (repeat split; reflexivity).

Lemma path_char_plain c :
  is_path_char c = true ->
  JS.is_c0_or_space c = false
  /\ JS.is_tab_or_newline c = false
  /\ JS.is_char "#" c = false
  /\ JS.is_char "?" c = false
  /\ JS.in_path_set c = false
  /\ JS.is_slash c = JS.is_char "/" c.
Proof. each_char c. Qed.

Lemma uuid_char_plain c :
  is_uuid_char c = true ->
  is_path_char c = true
  /\ JS.is_slash c = false
  /\ JS.in_path_set c = false
  /\ Ascii.eqb (JS.to_lower c) "." = false
  /\ Ascii.eqb (JS.to_lower c) "%" = false.
Proof. each_char c. Qed.

Lemma slash_char c : JS.is_char "/" c = true -> c = "/"%char.
Proof. unfold JS.is_char. intros H. symmetry. apply Ascii.eqb_eq. exact H. Qed.

Lemma all_chars_app p a b :
  all_chars p (a ++ b) = all_chars p a && all_chars p b.
Proof.
  induction a as [| c a IH]; cbn; [reflexivity |].
  rewrite IH, andb_assoc. reflexivity.
Qed.

Lemma all_chars_weaken (p q : ascii -> bool) s :
  (forall c, p c = true -> q c = true) ->
  all_chars p s = true -> all_chars q s = true.
Proof.
  intros Hpq. induction s as [| c s IH]; cbn; [reflexivity |].
  intros H. apply andb_true_iff in H as [Hc Hs].
  rewrite (Hpq c Hc), (IH Hs). reflexivity.
Qed.

Lemma append_empty s : s ++ "" = s.
Proof. induction s as [| c s IH]; cbn; [| rewrite IH]; reflexivity. Qed.

Lemma append_assoc' a b c : (a ++ b) ++ c = a ++ (b ++ c).
Proof. induction a as [| x a IH]; cbn; [| rewrite IH]; reflexivity. Qed.

Lemma cut_nothing q s :
  all_chars (fun c => negb (q c)) s = true -> JS.cut q s = (s, None).
Proof.
  induction s as [| c s IH]; cbn [JS.cut all_chars]; [reflexivity |].
  intros H. apply andb_true_iff in H as [Hc Hs].
  apply negb_true_iff in Hc. rewrite Hc, (IH Hs). reflexivity.
Qed.

Lemma clean_path s :
  all_chars is_path_char s = true -> JS.clean s = s.
Proof.
  intros H. unfold JS.clean.
  assert (Hstart : JS.trim_start s = s).
  { destruct s as [| c s]; cbn [JS.trim_start]; [reflexivity |].
    cbn [all_chars] in H. apply andb_true_iff in H as [Hc _].
    destruct (path_char_plain c Hc) as [-> _]. reflexivity. }
  assert (Hend : JS.trim_end s = s).
  { clear Hstart. induction s as [| c s IH]; cbn [JS.trim_end]; [reflexivity |].
    cbn [all_chars] in H. apply andb_true_iff in H as [Hc Hs].
    rewrite (IH Hs). destruct (path_char_plain c Hc) as [-> _].
    destruct s; reflexivity. }
  rewrite Hstart, Hend. clear Hstart Hend.
  induction s as [| c s IH]; cbn [JS.remove_chars]; [reflexivity |].
  cbn [all_chars] in H. apply andb_true_iff in H as [Hc Hs].
  destruct (path_char_plain c Hc) as [_ [-> _]]. rewrite (IH Hs). reflexivity.
Qed.

Lemma split3_path s :
  all_chars is_path_char s = true -> JS.split3 s = (s, None, None).
Proof.
  intros H. unfold JS.split3.
  rewrite (cut_nothing (JS.is_char "#") s).
  - rewrite (cut_nothing (JS.is_char "?") s); [reflexivity |].
    eapply all_chars_weaken; [| exact H].
    intros c Hc. destruct (path_char_plain c Hc) as [_ [_ [_ [-> _]]]]. reflexivity.
  - eapply all_chars_weaken; [| exact H].
    intros c Hc. destruct (path_char_plain c Hc) as [_ [_ [-> _]]]. reflexivity.
Qed.

Lemma split_at_cons p s : exists x xs, JS.split_at p s = x :: xs.
Proof.
  induction s as [| c s [x [xs IH]]]; cbn.
  - eauto.
  - destruct (p c); [eauto |]. rewrite IH. eauto.
Qed.

Lemma join_cons sep c x xs :
  JS.join sep (String c x :: xs) = String c (JS.join sep (x :: xs)).
Proof. destruct xs; reflexivity. Qed.

Lemma join_split_path s :
  all_chars is_path_char s = true ->
  JS.join "/" (JS.split_at JS.is_slash s) = s.
Proof.
  induction s as [| c s IH]; cbn [JS.split_at all_chars]; [reflexivity |].
  intros H. apply andb_true_iff in H as [Hc Hs].
  destruct (path_char_plain c Hc) as [_ [_ [_ [_ [_ Hsl]]]]].
  destruct (JS.is_slash c) eqn:Hslash.
  - symmetry in Hsl. apply slash_char in Hsl. subst c.
    destruct (split_at_cons JS.is_slash s) as [x [xs Hx]].
    specialize (IH Hs). rewrite Hx in *. cbn. cbn in IH. rewrite IH. reflexivity.
  - destruct (split_at_cons JS.is_slash s) as [x [xs Hx]].
    specialize (IH Hs). rewrite Hx in *. rewrite join_cons, IH. reflexivity.
Qed.

Lemma split_segments s :
  all_chars is_path_char s = true ->
  Forall (fun seg => all_chars is_uuid_char seg = true) (JS.split_at JS.is_slash s).
Proof.
  induction s as [| c s IH]; cbn [JS.split_at all_chars].
  - intros _. constructor; [reflexivity | constructor].
  - intros H. apply andb_true_iff in H as [Hc Hs]. specialize (IH Hs).
    destruct (JS.is_slash c) eqn:Hslash.
    + constructor; [reflexivity | exact IH].
    + destruct (split_at_cons JS.is_slash s) as [x [xs Hx]]. rewrite Hx in *.
      inversion IH as [| ? ? Hxs Hrest]; subst.
      constructor; [| exact Hrest]. cbn. rewrite Hxs, andb_true_r.
      revert Hc Hslash. clear. each_char c.
Qed.

Lemma segment_plain seg :
  all_chars is_uuid_char seg = true ->
  JS.is_single_dot seg = false
  /\ JS.is_double_dot seg = false
  /\ JS.percent_encode JS.in_path_set seg = seg.
Proof.
  intros H. split; [| split].
  - destruct seg as [| c seg]; [reflexivity |].
    cbn in H. apply andb_true_iff in H as [Hc _].
    destruct (uuid_char_plain c Hc) as [_ [_ [_ [Hdot Hpct]]]].
    unfold JS.is_single_dot. cbn. rewrite Hdot, Hpct. reflexivity.
  - destruct seg as [| c seg]; [reflexivity |].
    cbn in H. apply andb_true_iff in H as [Hc _].
    destruct (uuid_char_plain c Hc) as [_ [_ [_ [Hdot Hpct]]]].
    unfold JS.is_double_dot. cbn. rewrite Hdot, Hpct. reflexivity.
  - induction seg as [| c seg IH]; cbn [JS.percent_encode]; [reflexivity |].
    cbn [all_chars] in H. apply andb_true_iff in H as [Hc Hs].
    destruct (uuid_char_plain c Hc) as [_ [_ [-> _]]]. rewrite (IH Hs). reflexivity.
Qed.

Lemma path_state_plain segs :
  Forall (fun seg => all_chars is_uuid_char seg = true) segs ->
  forall acc, JS.path_state acc segs = (acc ++ segs)%list.
Proof.
  induction 1 as [| seg segs Hseg _ IH]; intros acc; cbn [JS.path_state].
  - rewrite app_nil_r. reflexivity.
  - destruct (segment_plain seg Hseg) as [-> [-> ->]].
    rewrite IH, <- app_assoc. reflexivity.
Qed.

Lemma starts_with_v1 p :
  JS.starts_with "/v1/" p = true -> exists rest, p = "/v1/" ++ rest.
Proof.
  destruct p as [| a [| b [| c [| d rest]]]]; cbn [JS.starts_with];
    try discriminate; try (rewrite ?andb_false_r; discriminate).
  intros H.
  apply andb_true_iff in H as [Ha H]. apply andb_true_iff in H as [Hb H].
  apply andb_true_iff in H as [Hc H]. apply andb_true_iff in H as [Hd _].
  apply Ascii.eqb_eq in Ha, Hb, Hc, Hd. subst. exists rest. reflexivity.
Qed.

(** A facade path resolved against any base keeps the base's origin and is
    itself the path of the result. *)
Lemma URL_new_facade_path p base b :
  JS.parse_absolute (JS.clean base) = Some b ->
  JS.starts_with "/v1/" p = true ->
  all_chars is_path_char p = true ->
  exists segs,
    JS.URL_new p base = Some (JS.mkURL (JS.protocol b) (JS.host b) segs None None)
    /\ "/" ++ JS.join "/" segs = p.
Proof.
  intros Hb Hv Hp. unfold JS.URL_new. rewrite Hb, (clean_path p Hp).
  destruct (starts_with_v1 p Hv) as [rest ->].
  change ("/v1/" ++ rest) with (String "/" (String "v" ("1/" ++ rest))) in *.
  set (r := String "v" ("1/" ++ rest)) in *.
  assert (Hr : all_chars is_path_char r = true).
  { cbn [all_chars] in Hp. apply andb_true_iff in Hp as [_ Hp]. exact Hp. }
  cbn [JS.scheme_of].
  change (JS.is_lower "/" || JS.is_upper "/") with false. cbv iota.
  unfold JS.relative. rewrite (split3_path _ Hp).
  change (JS.is_slash "/") with true. cbv iota.
  subst r. change (JS.is_slash "v") with false. cbv iota.
  exists (JS.split_at JS.is_slash (String "v" ("1/" ++ rest))). split.
  - rewrite (path_state_plain _ (split_segments _ Hr)). reflexivity.
  - rewrite (join_split_path _ Hr). reflexivity.
Qed.

Lemma set_query_entries_keep entries : forall u,
  let u' := fold_left set_query_entry entries u in
  JS.protocol u' = JS.protocol u /\ JS.host u' = JS.host u
  /\ JS.path u' = JS.path u /\ JS.fragment u' = JS.fragment u.
Proof.
  induction entries as [| entry entries IH]; intros u; cbn [fold_left].
  - repeat split.
  - destruct (IH (set_query_entry u entry)) as [H1 [H2 [H3 H4]]].
    cbv zeta. rewrite H1, H2, H3, H4.
    unfold set_query_entry. destruct (snd entry); repeat split.
Qed.


Lemma uuid_chars_are_path_chars s :
  all_chars is_uuid_char s = true -> all_chars is_path_char s = true.
Proof.
  apply all_chars_weaken. intros c Hc. destruct (uuid_char_plain c Hc) as [H _]. exact H.
Qed.

Lemma facade_paths call :
  exists options,
    snd (perform recorder call []) = [options]
    /\ JS.starts_with "/v1/" (path options) = true
    /\ (all_chars is_uuid_char (id_of call) = true ->
        all_chars is_path_char (path options) = true).
Proof.
  destruct call; eexists; (split; [reflexivity |]); (split; [reflexivity |]);
    cbn [path id_of]; intros Hid; rewrite ?all_chars_app;
    rewrite ?(uuid_chars_are_path_chars _ Hid); reflexivity.
Qed.

(** The prefix [/notion] of a custom base URL is not in the URL that is
    built, and the default base URL gives its own [/v1] only because the
    paths of the facade repeat it. *)
Example buildURL_drops_the_base_path :
  Pipeline.buildURL Sample.proxied ("/v1/databases/" ++ Sample.id) None
  = Some "https://proxy.example.com/v1/databases/8f1c2a9e-7b3d-4c5f-9a10-2e6d4b7c8a91"
  /\ Pipeline.buildURL Sample.config "/v1/users"
       (Some [("start_cursor", QUndefined); ("page_size", QNumber 100)])
     = Some "https://api.notion.com/v1/users?page_size=100".
Proof. split; vm_compute; reflexivity. Qed.

(* ====================================================================== *)
(** * Further properties of the HTTP pipeline *)
(* ====================================================================== *)

Lemma parseResponse_success response text value w :
  Response.ok response = true ->
  Response.body response = JS.Resolved text ->
  JS.JSON_parse text = Some value ->
  Pipeline.parseResponse response w = (Success value, w).
Proof.
  intros Hok Hbody Hparse.
  unfold Pipeline.parseResponse, flatMap, tryPromise, Response.text.
  rewrite Hbody, Hok. cbn. rewrite Hparse. reflexivity.
Qed.

Lemma attempt_succeeds global_fetch config options url w v :
  (1 <= permits w)%Z ->
  Pipeline.buildURL config (path options) (query options) = Some url ->
  succeeds_with (Pipeline.fetchFn global_fetch config (fetched w) url
                   (Pipeline.requestInit config options)) v ->
  Pipeline.attempt global_fetch config semaphore_limiter options w
  = (Success v, after_attempt url (Pipeline.requestInit config options) w).
Proof.
  intros Hp Hu Hs. rewrite (attempt_run global_fetch config options url w Hp Hu). apply Hs.
Qed.

(** X1: a success response whose body is JSON ends the request at the
    first attempt: the value is what [JSON.parse] gives for the body,
    whatever its shape, one network call is made and the fiber does not
    sleep. *)
Theorem request_succeeds_at_the_first_attempt
    (global_fetch : FetchFn) (config : NotionClientConfig)
    (options : RequestOptions) (url : string) (w : World)
    (response : Response.t) (text : string) (value : JS.json) :
  (1 <= permits w)%Z ->
  Pipeline.buildURL config (path options) (query options) = Some url ->
  Pipeline.fetchFn global_fetch config (fetched w) url (Pipeline.requestInit config options)
  = JS.Resolved response ->
  Response.ok response = true ->
  Response.body response = JS.Resolved text ->
  JS.JSON_parse text = Some value ->
  exists w',
    request (createHttpClient global_fetch config semaphore_limiter) options w
    = (Success value, w')
    /\ fetched w' = S (fetched w)
    /\ trace w' = (trace w ++ attempt_events url (Pipeline.requestInit config options))%list.
Proof.
  intros Hp Hu Hf Hok Hbody Hparse.
  exists (after_attempt url (Pipeline.requestInit config options) w).
  split; [| split].
  - unfold createHttpClient, request, Pipeline.request, retry.
    apply retry_loop_success. apply attempt_succeeds; try assumption.
    rewrite Hf. intros v. cbn [settle].
    apply (parseResponse_success response text value v Hok Hbody Hparse).
  - apply after_attempt_fetched.
  - apply after_attempt_trace.
Qed.

Lemma request_succeeds_at_the_first_attempt_witness :
  exists w',
    request (createHttpClient Sample.recovering Sample.config semaphore_limiter)
      Sample.retrieve_page
      {| permits := 10; daemons := []; fetched := 1; trace := [] |}
    = (Success Sample.page_json, w')
    /\ fetched w' = 2%nat
    /\ trace w' = attempt_events Sample.retrieve_page_url
                    (Pipeline.requestInit Sample.config Sample.retrieve_page).
Proof.
  apply (request_succeeds_at_the_first_attempt Sample.recovering Sample.config
           Sample.retrieve_page Sample.retrieve_page_url
           {| permits := 10; daemons := []; fetched := 1; trace := [] |}
           {| Response.status := 200; Response.statusText := "OK";
              Response.body := JS.Resolved (JS.JSON_stringify Sample.page_json) |}
           (JS.JSON_stringify Sample.page_json) Sample.page_json).
  - cbn. lia.
  - vm_compute. reflexivity.
  - reflexivity.
  - reflexivity.
  - reflexivity.
  - vm_compute. reflexivity.
Defined.

(** X2: when the first network call fails with a transient code and the
    second brings a success response with a JSON body, the request
    succeeds with that body after exactly one retry, made after a sleep of
    one second. *)
Theorem request_recovers_after_one_transient_failure
    (global_fetch : FetchFn) (config : NotionClientConfig)
    (options : RequestOptions) (url : string) (w : World)
    (e : NotionError.t) (v : JS.json) :
  (1 <= permits w)%Z ->
  Pipeline.buildURL config (path options) (query options) = Some url ->
  fails_with (Pipeline.fetchFn global_fetch config (fetched w) url
                (Pipeline.requestInit config options)) e ->
  In (NotionError.code e) transient_codes ->
  succeeds_with (Pipeline.fetchFn global_fetch config (S (fetched w)) url
                   (Pipeline.requestInit config options)) v ->
  exists w',
    request (createHttpClient global_fetch config semaphore_limiter) options w
    = (Success v, w')
    /\ fetched w' = S (S (fetched w))
    /\ trace w'
       = (trace w
          ++ attempt_events url (Pipeline.requestInit config options)
          ++ [EvSleep 1000]
          ++ attempt_events url (Pipeline.requestInit config options))%list.
Proof.
  intros Hp Hu Hfail Hcode Hok.
  set (init := Pipeline.requestInit config options) in *.
  set (opts := {| times := 3;
                  schedule := Schedule.exponential (Duration.seconds 1);
                  while := Pipeline.retryable |}).
  set (self := Pipeline.attempt global_fetch config semaphore_limiter options).
  set (w1 := elapse (schedule opts 0) (after_attempt url init w)).
  assert (Hp1 : (1 <= permits w1)%Z).
  { subst w1. rewrite sleep_permits, after_attempt_permits. exact Hp. }
  assert (Hn1 : fetched w1 = S (fetched w)).
  { subst w1. rewrite sleep_fetched, after_attempt_fetched. reflexivity. }
  exists (after_attempt url init w1). split; [| split].
  - change (request (createHttpClient global_fetch config semaphore_limiter) options w)
      with (retry_loop opts 3 0 self w).
    rewrite (retry_loop_again opts self 2 0 w e (after_attempt url init w)).
    + apply retry_loop_success. apply attempt_succeeds; assumption.
    + apply attempt_fails; assumption.
    + apply retryable_transient. exact Hcode.
  - rewrite after_attempt_fetched, Hn1. reflexivity.
  - rewrite after_attempt_trace. subst w1.
    rewrite sleep_trace, after_attempt_trace, <- !app_assoc. reflexivity.
Qed.

Lemma request_recovers_after_one_transient_failure_witness :
  exists w',
    request (createHttpClient Sample.recovering Sample.config semaphore_limiter)
      Sample.retrieve_page Sample.world
    = (Success Sample.page_json, w')
    /\ fetched w' = S (S (fetched Sample.world))
    /\ trace w'
       = (trace Sample.world
          ++ attempt_events Sample.retrieve_page_url
               (Pipeline.requestInit Sample.config Sample.retrieve_page)
          ++ [EvSleep 1000]
          ++ attempt_events Sample.retrieve_page_url
               (Pipeline.requestInit Sample.config Sample.retrieve_page))%list.
Proof.
  apply (request_recovers_after_one_transient_failure Sample.recovering Sample.config
           Sample.retrieve_page Sample.retrieve_page_url Sample.world
           (NotionError.make 429 rate_limited "slow down" None) Sample.page_json).
  - cbn. lia.
  - vm_compute. reflexivity.
  - intros w. vm_compute. reflexivity.
  - cbn. left. reflexivity.
  - intros w. vm_compute. reflexivity.
Defined.

Lemma transport_failure_error r :
  transport_failure r ->
  exists e, fails_with r e
            /\ NotionError.status e = 0%Z
            /\ NotionError.code e = internal_server_error.
Proof.
  intros [[reason ->] | [response [reason [-> Hbody]]]].
  - eexists. split; [intros w; reflexivity | split; reflexivity].
  - exists (NotionError.make 0 internal_server_error "Failed to read response body" None).
    split; [| split; reflexivity].
    intros w. cbn [settle].
    unfold Pipeline.parseResponse, flatMap, tryPromise, Response.text.
    rewrite Hbody. reflexivity.
Qed.

(** Four transient failures in a row exhaust the retries; [good] is any
    property the errors of the calls have. *)
Lemma request_gives_up (good : NotionError.t -> Prop)
    (global_fetch : FetchFn) (config : NotionClientConfig)
    (options : RequestOptions) (url : string) (w : World) :
  (1 <= permits w)%Z ->
  Pipeline.buildURL config (path options) (query options) = Some url ->
  (forall n, exists e,
      fails_with (Pipeline.fetchFn global_fetch config n url
                    (Pipeline.requestInit config options)) e
      /\ Pipeline.retryable e = true /\ good e) ->
  exists e w',
    request (createHttpClient global_fetch config semaphore_limiter) options w
    = (Failure e, w')
    /\ good e
    /\ fetched w' = (4 + fetched w)%nat
    /\ trace w'
       = (trace w
          ++ attempt_events url (Pipeline.requestInit config options)
          ++ [EvSleep 1000]
          ++ attempt_events url (Pipeline.requestInit config options)
          ++ [EvSleep 2000]
          ++ attempt_events url (Pipeline.requestInit config options)
          ++ [EvSleep 4000]
          ++ attempt_events url (Pipeline.requestInit config options))%list.
Proof.
  intros Hp Hu Hall.
  set (init := Pipeline.requestInit config options) in *.
  set (self := Pipeline.attempt global_fetch config semaphore_limiter options).
  set (opts := {| times := 3;
                  schedule := Schedule.exponential (Duration.seconds 1);
                  while := Pipeline.retryable |}).
  assert (Hstep : forall v, (1 <= permits v)%Z ->
            exists e, good e /\ Pipeline.retryable e = true
                      /\ self v = (Failure e, after_attempt url init v)).
  { intros v Hv. destruct (Hall (fetched v)) as [e [Hf [Hr Hg]]].
    exists e. split; [exact Hg |]. split; [exact Hr |].
    apply attempt_fails; assumption. }
  destruct (Hstep w Hp) as [e1 [_ [Hr1 Ha1]]].
  set (w1 := elapse (schedule opts 0) (after_attempt url init w)).
  assert (Hp1 : (1 <= permits w1)%Z).
  { subst w1. rewrite sleep_permits, after_attempt_permits. exact Hp. }
  destruct (Hstep w1 Hp1) as [e2 [_ [Hr2 Ha2]]].
  set (w2 := elapse (schedule opts 1) (after_attempt url init w1)).
  assert (Hp2 : (1 <= permits w2)%Z).
  { subst w2. rewrite sleep_permits, after_attempt_permits. exact Hp1. }
  destruct (Hstep w2 Hp2) as [e3 [_ [Hr3 Ha3]]].
  set (w3 := elapse (schedule opts 2) (after_attempt url init w2)).
  assert (Hp3 : (1 <= permits w3)%Z).
  { subst w3. rewrite sleep_permits, after_attempt_permits. exact Hp2. }
  destruct (Hstep w3 Hp3) as [e4 [Hg4 [_ Ha4]]].
  exists e4, (after_attempt url init w3).
  split; [| split; [exact Hg4 | split]].
  - change (request (createHttpClient global_fetch config semaphore_limiter) options w)
      with (retry_loop opts 3 0 self w).
    rewrite (retry_loop_again opts self 2 0 w e1 _ Ha1 Hr1).
    rewrite (retry_loop_again opts self 1 1 w1 e2 _ Ha2 Hr2).
    rewrite (retry_loop_again opts self 0 2 w2 e3 _ Ha3 Hr3).
    apply (retry_loop_exhausted opts self 3 w3 e4 _ Ha4).
  - reflexivity.
  - rewrite after_attempt_trace. subst w3.
    rewrite sleep_trace, after_attempt_trace. subst w2.
    rewrite sleep_trace, after_attempt_trace. subst w1.
    rewrite sleep_trace, after_attempt_trace.
    rewrite <- !app_assoc. reflexivity.
Qed.

(** X4: a rejected network call and a response whose body cannot be read
    are both reported as [internal_server_error] with status 0, whatever
    the status of the response was; the code being transient they are
    retried, so that a network that stays down costs four calls and the
    sleeps of 1 s, 2 s and 4 s. *)
Theorem transport_failures_are_retried_with_status_0
    (global_fetch : FetchFn) (config : NotionClientConfig)
    (options : RequestOptions) (url : string) (w : World) :
  (1 <= permits w)%Z ->
  Pipeline.buildURL config (path options) (query options) = Some url ->
  (forall n, transport_failure
               (Pipeline.fetchFn global_fetch config n url
                  (Pipeline.requestInit config options))) ->
  exists e w',
    request (createHttpClient global_fetch config semaphore_limiter) options w
    = (Failure e, w')
    /\ (NotionError.status e = 0%Z /\ NotionError.code e = internal_server_error)
    /\ fetched w' = (4 + fetched w)%nat
    /\ trace w'
       = (trace w
          ++ attempt_events url (Pipeline.requestInit config options)
          ++ [EvSleep 1000]
          ++ attempt_events url (Pipeline.requestInit config options)
          ++ [EvSleep 2000]
          ++ attempt_events url (Pipeline.requestInit config options)
          ++ [EvSleep 4000]
          ++ attempt_events url (Pipeline.requestInit config options))%list.
Proof.
  intros Hp Hu Hall.
  apply (request_gives_up
           (fun e => NotionError.status e = 0%Z
                     /\ NotionError.code e = internal_server_error)
           global_fetch config options url w Hp Hu).
  intros n. destruct (transport_failure_error _ (Hall n)) as [e [Hf [Hs Hc]]].
  exists e. split; [exact Hf |]. split; [| split; assumption].
  apply retryable_transient. rewrite Hc. cbn. right. left. reflexivity.
Qed.

Lemma transport_failures_are_retried_with_status_0_witness :
  exists e w',
    request (createHttpClient Sample.offline Sample.config semaphore_limiter)
      Sample.retrieve_page Sample.world
    = (Failure e, w')
    /\ (NotionError.status e = 0%Z /\ NotionError.code e = internal_server_error)
    /\ fetched w' = (4 + fetched Sample.world)%nat
    /\ trace w'
       = (trace Sample.world
          ++ attempt_events Sample.retrieve_page_url
               (Pipeline.requestInit Sample.config Sample.retrieve_page)
          ++ [EvSleep 1000]
          ++ attempt_events Sample.retrieve_page_url
               (Pipeline.requestInit Sample.config Sample.retrieve_page)
          ++ [EvSleep 2000]
          ++ attempt_events Sample.retrieve_page_url
               (Pipeline.requestInit Sample.config Sample.retrieve_page)
          ++ [EvSleep 4000]
          ++ attempt_events Sample.retrieve_page_url
               (Pipeline.requestInit Sample.config Sample.retrieve_page))%list.
Proof.
  apply (transport_failures_are_retried_with_status_0 Sample.offline Sample.config
           Sample.retrieve_page Sample.retrieve_page_url Sample.world).
  - cbn. lia.
  - vm_compute. reflexivity.
  - intros n. left. exists (JS.ErrorObject "connection refused"). reflexivity.
Defined.

Lemma parseResponse_exit (response : Response.t) (w : World) :
  (exists e, Pipeline.parseResponse response w = (Failure e, w))
  \/ (exists text value,
         Response.ok response = true
         /\ Response.body response = JS.Resolved text
         /\ JS.JSON_parse text = Some value
         /\ Pipeline.parseResponse response w = (Success value, w)).
Proof.
  unfold Pipeline.parseResponse, flatMap, tryPromise, Response.text.
  destruct (Response.body response) as [text | reason] eqn:Hbody.
  - destruct (Response.ok response) eqn:Hok; cbn [negb].
    + destruct (JS.JSON_parse text) as [value |] eqn:Hparse.
      * right. exists text, value. repeat split; first [assumption | reflexivity].
      * left. eexists. reflexivity.
    + left.
      match goal with |- exists e, (match ?x with _ => _ end) w = _ => destruct x end;
        eexists; reflexivity.
  - left. eexists. reflexivity.
Qed.

(** X5: [parseResponse] never ends in a defect and never parks: it fails
    with a typed error, or it succeeds, and it succeeds only for a success
    status, with the value [JSON.parse] gives for the body; the world is
    left as it was. *)
Theorem parseResponse_fails_or_returns_the_parsed_body (response : Response.t) (w : World) :
  (exists e, Pipeline.parseResponse response w = (Failure e, w))
  \/ (exists text value,
         Response.ok response = true
         /\ Response.body response = JS.Resolved text
         /\ JS.JSON_parse text = Some value
         /\ Pipeline.parseResponse response w = (Success value, w)).
Proof. apply parseResponse_exit. Qed.

Lemma settle_exit r w :
  (exists e, settle r w = (Failure e, w)) \/ (exists v, settle r w = (Success v, w)).
Proof.
  destruct r as [response | reason]; cbn [settle].
  - destruct (parseResponse_exit response w)
      as [[e He] | [text [value [_ [_ [_ Hv]]]]]]; [left | right]; eauto.
  - left. eexists. reflexivity.
Qed.

(** The world after a permit was taken and given back and nothing else. *)
Lemma attempt_dies global_fetch config options w :
  (1 <= permits w)%Z ->
  Pipeline.buildURL config (path options) (query options) = None ->
  Pipeline.attempt global_fetch config semaphore_limiter options w
  = (Die "TypeError: Invalid URL",
     TSemaphore.release_now 1 (log (EvAcquire 1) (set_permits (permits w - 1) w))).
Proof.
  intros Hp Hu.
  unfold Pipeline.attempt, tap, Do, map.
  unfold flatMap at 1. unfold flatMap at 1. unfold succeed at 1.
  unfold flatMap at 1. cbn [acquire semaphore_limiter].
  rewrite withPermit_void by exact Hp.
  unfold succeed at 1. rewrite Hu. reflexivity.
Qed.

Lemma retry_loop_defect {W E A : Type} `{Clock W} (options : RetryOptions E)
    (self : Effect W E A) left recurrence w d w' :
  self w = (Die d, w') ->
  retry_loop options left recurrence self w = (Die d, w').
Proof. intros Hs. destruct left; cbn [retry_loop]; rewrite Hs; reflexivity. Qed.

(** A request for which no URL is built. *)
Lemma request_without_a_url
    (global_fetch : FetchFn) (config : NotionClientConfig)
    (options : RequestOptions) (w : World) :
  (1 <= permits w)%Z ->
  Pipeline.buildURL config (path options) (query options) = None ->
  exists defect w',
    request (createHttpClient global_fetch config semaphore_limiter) options w
    = (Die defect, w')
    /\ fetched w' = fetched w
    /\ trace w' = (trace w ++ [EvAcquire 1; EvRelease 1])%list.
Proof.
  intros Hp Hu. eexists. eexists. split; [| split].
  - unfold createHttpClient, request, Pipeline.request, retry.
    apply retry_loop_defect. apply attempt_dies; assumption.
  - reflexivity.
  - cbn. rewrite <- app_assoc. reflexivity.
Qed.

(** A base without a scheme is no base: [new URL] throws. *)
Lemma buildURL_without_a_scheme config p q :
  JS.scheme_of (JS.clean (JS.or_string (baseURL config) "https://api.notion.com/v1")) = None ->
  Pipeline.buildURL config p q = None.
Proof.
  intros Hs. unfold Pipeline.buildURL, JS.URL_new, JS.parse_absolute.
  rewrite Hs. reflexivity.
Qed.

(** X6: when the configured base URL does not begin with a scheme (a
    letter, then letters, digits, [+], [-] or [.], then a colon), so that
    [new URL] throws whatever the path is, the request ends in a defect
    and not in a typed error: no network call is made and nothing is
    retried; the permit was taken and given back before. *)
Theorem request_dies_on_a_base_url_without_a_scheme
    (global_fetch : FetchFn) (config : NotionClientConfig)
    (options : RequestOptions) (w : World) :
  (1 <= permits w)%Z ->
  JS.scheme_of (JS.clean (JS.or_string (baseURL config) "https://api.notion.com/v1")) = None ->
  exists defect w',
    request (createHttpClient global_fetch config semaphore_limiter) options w
    = (Die defect, w')
    /\ fetched w' = fetched w
    /\ trace w' = (trace w ++ [EvAcquire 1; EvRelease 1])%list.
Proof.
  intros Hp Hs.
  apply request_without_a_url; [exact Hp |].
  apply buildURL_without_a_scheme. exact Hs.
Qed.

Lemma request_dies_on_a_base_url_without_a_scheme_witness :
  exists defect w',
    request (createHttpClient Sample.always_not_found Sample.unreachable semaphore_limiter)
      Sample.retrieve_page Sample.world
    = (Die defect, w')
    /\ fetched w' = fetched Sample.world
    /\ trace w' = (trace Sample.world ++ [EvAcquire 1; EvRelease 1])%list.
Proof.
  apply (request_dies_on_a_base_url_without_a_scheme Sample.always_not_found
           Sample.unreachable Sample.retrieve_page Sample.world).
  - cbn. lia.
  - vm_compute. reflexivity.
Defined.

Lemma count_events_app kind (a b : list Event) :
  count_events kind (a ++ b) = (count_events kind a + count_events kind b)%nat.
Proof. unfold count_events. rewrite filter_app, length_app. reflexivity. Qed.

(** One attempt, whatever the network does. *)
Lemma attempt_shape global_fetch config options w :
  (1 <= permits w)%Z ->
  exists exit w',
    Pipeline.attempt global_fetch config semaphore_limiter options w = (exit, w')
    /\ exit <> Blocked
    /\ permits w' = permits w
    /\ (fetched w <= fetched w' <= S (fetched w))%nat
    /\ count_events is_sleep (trace w') = count_events is_sleep (trace w).
Proof.
  intros Hp.
  destruct (Pipeline.buildURL config (path options) (query options)) as [url |] eqn:Hu.
  - rewrite (attempt_run global_fetch config options url w Hp Hu).
    set (r := Pipeline.fetchFn global_fetch config (fetched w) url
                (Pipeline.requestInit config options)).
    set (w1 := after_attempt url (Pipeline.requestInit config options) w).
    assert (Hw1 : permits w1 = permits w
                  /\ (fetched w <= fetched w1 <= S (fetched w))%nat
                  /\ count_events is_sleep (trace w1) = count_events is_sleep (trace w)).
    { subst w1. rewrite after_attempt_permits, after_attempt_fetched, after_attempt_trace.
      rewrite count_events_app. cbn. split; [reflexivity |]. split; lia. }
    destruct (settle_exit r w1) as [[e ->] | [v ->]].
    + exists (Failure e), w1. split; [reflexivity |]. split; [discriminate | exact Hw1].
    + exists (Success v), w1. split; [reflexivity |]. split; [discriminate | exact Hw1].
  - rewrite (attempt_dies global_fetch config options w Hp Hu).
    eexists. eexists. split; [reflexivity |]. split; [discriminate |].
    cbn [permits fetched trace TSemaphore.release_now log set_permits].
    unfold TSemaphore.releaseN_txn. rewrite !count_events_app. cbn.
    split; [lia |]. split; lia.
Qed.

Lemma retry_loop_shape global_fetch config options left : forall recurrence w,
  (1 <= permits w)%Z ->
  exists exit w',
    retry_loop
      {| times := 3; schedule := Schedule.exponential (Duration.seconds 1);
         while := Pipeline.retryable |}
      left recurrence
      (Pipeline.attempt global_fetch config semaphore_limiter options) w
    = (exit, w')
    /\ exit <> Blocked
    /\ permits w' = permits w
    /\ (fetched w <= fetched w' <= fetched w + S left)%nat
    /\ (count_events is_sleep (trace w') <= count_events is_sleep (trace w) + left)%nat.
Proof.
  induction left as [| left IH]; intros recurrence w Hp;
    destruct (attempt_shape global_fetch config options w Hp)
      as [exit [w1 [Ha [Hb [Hp1 [Hn1 Hs1]]]]]];
    cbn [retry_loop]; rewrite Ha.
  - exists exit, w1. split; [destruct exit; reflexivity |].
    split; [exact Hb |]. split; [exact Hp1 |]. split; lia.
  - destruct exit as [v | e | d |].
    + exists (Success v), w1. split; [reflexivity |].
      split; [exact Hb |]. split; [exact Hp1 |]. split; lia.
    + cbn [while]. destruct (Pipeline.retryable e).
      * set (w2 := elapse _ w1).
        assert (Hp2 : (1 <= permits w2)%Z).
        { subst w2. rewrite sleep_permits, Hp1. exact Hp. }
        destruct (IH (S recurrence) w2 Hp2) as [exit' [w' [Hr [Hb' [Hp' [Hn' Hs']]]]]].
        exists exit', w'. split; [exact Hr |]. split; [exact Hb' |].
        subst w2. rewrite sleep_permits in Hp'. rewrite sleep_fetched in Hn'.
        rewrite sleep_trace, count_events_app in Hs'. cbn in Hs'.
        split; [congruence |]. split; lia.
      * exists (Failure e), w1. split; [reflexivity |].
        split; [exact Hb |]. split; [exact Hp1 |]. split; lia.
    + exists (Die d), w1. split; [reflexivity |].
      split; [exact Hb |]. split; [exact Hp1 |]. split; lia.
    + contradiction Hb. reflexivity.
Qed.

Lemma request_shape global_fetch config options w :
  (1 <= permits w)%Z ->
  exists exit w',
    request (createHttpClient global_fetch config semaphore_limiter) options w = (exit, w')
    /\ exit <> Blocked
    /\ permits w' = permits w
    /\ (fetched w <= fetched w' <= fetched w + 4)%nat
    /\ (count_events is_sleep (trace w') <= count_events is_sleep (trace w) + 3)%nat.
Proof.
  intros Hp.
  exact (retry_loop_shape global_fetch config options 3 0 w Hp).
Qed.

(** X7: whatever the network answers, a request that finds a permit ends
    (in success, failure or defect) without parking, after at most four
    network calls and at most three sleeps, and it does not lower the
    permit count of the limiter: it gives back what it takes, and the
    refill fibers beside it can only add. *)
Theorem request_makes_at_most_four_calls
    (global_fetch : FetchFn) (config : NotionClientConfig)
    (options : RequestOptions) (w : World) :
  (1 <= permits w)%Z ->
  exists exit w',
    request (createHttpClient global_fetch config semaphore_limiter) options w = (exit, w')
    /\ exit <> Blocked
    /\ (permits w <= permits w')%Z
    /\ (fetched w <= fetched w' <= fetched w + 4)%nat
    /\ (count_events is_sleep (trace w') <= count_events is_sleep (trace w) + 3)%nat.
Proof.
  intros Hp.
  destruct (request_shape global_fetch config options w Hp)
    as [exit [w' [Hr [Hb [Hperm [Hn Hs]]]]]].
  exists exit, w'. split; [exact Hr |]. split; [exact Hb |].
  split; [lia |]. split; assumption.
Qed.

Lemma request_makes_at_most_four_calls_witness :
  exists exit w',
    request (createHttpClient Sample.recovering Sample.config semaphore_limiter)
      Sample.list_users Sample.world = (exit, w')
    /\ exit <> Blocked
    /\ (permits Sample.world <= permits w')%Z
    /\ (fetched Sample.world <= fetched w' <= fetched Sample.world + 4)%nat
    /\ (count_events is_sleep (trace w')
        <= count_events is_sleep (trace Sample.world) + 3)%nat.
Proof.
  apply (request_makes_at_most_four_calls Sample.recovering Sample.config
           Sample.list_users Sample.world).
  cbn. lia.
Defined.

Lemma run_all_shape global_fetch config requests : forall w,
  (1 <= permits w)%Z ->
  Forall (fun exit => exit <> Blocked)
    (fst (run_all (createHttpClient global_fetch config semaphore_limiter) requests w))
  /\ permits (snd (run_all (createHttpClient global_fetch config semaphore_limiter)
                     requests w)) = permits w
  /\ (fetched (snd (run_all (createHttpClient global_fetch config semaphore_limiter)
                      requests w))
      <= fetched w + 4 * length requests)%nat.
Proof.
  induction requests as [| options rest IH]; intros w Hp; cbn [run_all].
  - cbn. split; [constructor |]. split; [reflexivity | lia].
  - destruct (request_shape global_fetch config options w Hp)
      as [exit [w1 [Hr [Hb [Hp1 [Hn1 _]]]]]].
    rewrite Hr.
    assert (Hp1' : (1 <= permits w1)%Z) by (rewrite Hp1; exact Hp).
    destruct (IH w1 Hp1') as [Hall [Hperm Hn]].
    destruct (run_all (createHttpClient global_fetch config semaphore_limiter) rest w1)
      as [exits w2].
    cbn [fst snd length] in *. split; [constructor; assumption |].
    split; [congruence | lia].
Qed.

(** X8: the client of [NotionClientLayer] never waits for the limiter.
    Whatever the requests a fiber makes one after the other and whatever
    the network answers, no request parks on the semaphore, the limiter
    holds no fewer than its 10 permits after them (the refill fibers
    beside the requests can only add), and at most four network calls were
    made per request. *)
Theorem layer_client_is_never_held_back
    (global_fetch : FetchFn) (config : NotionClientConfig)
    (requests : list RequestOptions) (w0 : World) :
  exists http w1,
    NotionClientLayer global_fetch config w0 = (Success http, w1)
    /\ permits w1 = 10%Z
    /\ Forall (fun exit => exit <> Blocked) (fst (run_all http requests w1))
    /\ (10 <= permits (snd (run_all http requests w1)))%Z
    /\ (fetched (snd (run_all http requests w1))
        <= fetched w0 + 4 * length requests)%nat.
Proof.
  eexists. eexists. split; [reflexivity |]. split; [reflexivity |].
  match goal with
  | |- Forall _ (fst (run_all _ _ ?w)) /\ _ =>
      destruct (run_all_shape global_fetch config requests w) as [Hall [Hperm Hn]];
        [cbn; lia |]
  end.
  split; [exact Hall |]. split; [| exact Hn].
  exact (Z.eq_le_incl _ _ (eq_sym Hperm)).
Qed.

(** X10: the request carries a [Content-Type] header exactly when it carries
    a body, the header is then [application/json], and a body is carried
    exactly when the options have a truthy one, of which it is the JSON
    text; the bearer token is always sent. *)
Theorem content_type_goes_with_the_body (config : NotionClientConfig)
    (options : RequestOptions) :
  (In "Content-Type" (List.map fst (init_headers (Pipeline.requestInit config options)))
   <-> init_body (Pipeline.requestInit config options) <> None)
  /\ (forall value,
         In ("Content-Type", value) (init_headers (Pipeline.requestInit config options))
         -> value = "application/json")
  /\ (forall text,
         init_body (Pipeline.requestInit config options) = Some text
         <-> exists b, body options = Some b /\ JS.truthy b = true
                       /\ text = JS.JSON_stringify b)
  /\ In ("Authorization", "Bearer " ++ auth config)
       (init_headers (Pipeline.requestInit config options)).
Proof.
  unfold Pipeline.requestInit. cbn [init_headers init_body].
  destruct (body options) as [b |]; [destruct (JS.truthy b) eqn:Ht |];
    unfold Pipeline.buildHeaders; cbn.
  - split; [split; [discriminate | auto] |].
    split; [intros value [H | [H | [H | []]]]; congruence |].
    split; [| auto].
    intros text. split.
    + intros H. injection H as <-. exists b. auto.
    + intros [b' [Hb [_ ->]]]. injection Hb as <-. reflexivity.
  - split; [split; [intros [H | [H | []]]; discriminate | congruence] |].
    split; [intros value [H | [H | []]]; congruence |].
    split; [| auto].
    intros text. split; [discriminate |].
    intros [b' [Hb [Ht' _]]]. injection Hb as <-. congruence.
  - split; [split; [intros [H | [H | []]]; discriminate | congruence] |].
    split; [intros value [H | [H | []]]; congruence |].
    split; [| auto].
    intros text. split; [discriminate |].
    intros [b' [Hb _]]. discriminate.
Qed.

Lemma set_unset_entry entry url :
  is_set entry = false -> set_query_entry url entry = url.
Proof.
  unfold is_set, set_query_entry. destruct (snd entry); try discriminate; reflexivity.
Qed.

Lemma fold_set_entries_filter entries : forall url,
  fold_left set_query_entry entries url
  = fold_left set_query_entry (filter is_set entries) url.
Proof.
  induction entries as [| entry entries IH]; intros url; cbn [fold_left filter].
  - reflexivity.
  - destruct (is_set entry) eqn:Hs; cbn [fold_left].
    + apply IH.
    + rewrite (set_unset_entry entry url Hs). apply IH.
Qed.

(** X11: entries of the query record whose value is [undefined] or [null]
    leave no mark in the URL: the URL is the one built from the other
    entries, and when no entry holds a value it is the URL built without a
    query record. *)
Theorem buildURL_skips_entries_without_a_value (config : NotionClientConfig)
    (path : string) (entries : list (string * QueryValue)) :
  Pipeline.buildURL config path (Some entries)
  = Pipeline.buildURL config path
      (match filter is_set entries with
       | [] => None
       | set => Some set
       end).
Proof.
  unfold Pipeline.buildURL.
  destruct (JS.URL_new path _) as [url |]; [| destruct (filter is_set entries); reflexivity].
  change (fold_left _ entries url) with (fold_left set_query_entry entries url).
  rewrite fold_set_entries_filter.
  destruct (filter is_set entries) as [| entry set]; reflexivity.
Qed.

(* ====================================================================== *)
(** * Further properties of the rate limiter *)
(* ====================================================================== *)

Lemma limiter_step_invariant burst c c' :
  limiter_step c c' ->
  (burst <= permits (fst c) + Z.of_nat (snd c))%Z ->
  (burst <= permits (fst c') + Z.of_nat (snd c'))%Z.
Proof.
  intros Hstep. destruct Hstep as [w inside interval w' _ Hr | w inside w' Ht | w inside];
    cbn [fst snd]; intros H.
  - rewrite refill_cycle_run in Hr. injection Hr as <-.
    cbn. unfold TSemaphore.releaseN_txn. lia.
  - unfold TSemaphore.acquireN, TSemaphore.acquireN_txn in Ht.
    destruct (Z.ltb_spec (permits w) 1); [discriminate |].
    injection Ht as <-. cbn. lia.
  - cbn. unfold TSemaphore.releaseN_txn. lia.
Qed.

Lemma limiter_steps_invariant burst c c' :
  limiter_steps c c' ->
  (burst <= permits (fst c) + Z.of_nat (snd c))%Z ->
  (burst <= permits (fst c') + Z.of_nat (snd c'))%Z.
Proof.
  induction 1 as [c | c1 c2 c3 _ IH Hstep]; intros H.
  - exact H.
  - eapply limiter_step_invariant; [exact Hstep | exact (IH H)].
Qed.

(** X9: the permit count of the limiter never falls below [burst] minus
    the number of callers that are inside [acquire]; with no caller inside
    it is at least [burst], so that for a positive burst an [acquire] finds
    a permit. *)
Theorem limiter_keeps_at_least_burst_permits (rps : Q) (burst : Z) (w : World) (inside : nat) :
  limiter_reachable rps burst (w, inside) ->
  (burst <= permits w + Z.of_nat inside)%Z.
Proof.
  intros [w0 Hsteps].
  apply (limiter_steps_invariant burst _ _ Hsteps). cbn. lia.
Qed.

Lemma limiter_keeps_at_least_burst_permits_witness :
  (10 <= permits (TSemaphore.release_now 1 (log (EvSleep (refillInterval 3)) Sample.world))
         + Z.of_nat 0)%Z.
Proof.
  apply (limiter_keeps_at_least_burst_permits 3 10
           (TSemaphore.release_now 1 (log (EvSleep (refillInterval 3)) Sample.world)) 0).
  exists Sample.empty_world.
  eapply steps_then; [apply steps_refl |].
  eapply step_refill with (interval := refillInterval 3).
  - cbn. left. reflexivity.
  - reflexivity.
Defined.

(* ====================================================================== *)
(** * Further properties of the facade and the helpers *)
(* ====================================================================== *)

(** X14: every call of the facade hands exactly one request to the HTTP
    client.  The request has a body exactly when its method is [POST] or
    [PATCH]; [GET] and [DELETE] requests have none, and only [GET] requests
    have a query record. *)
Theorem facade_calls_send_a_body_with_POST_and_PATCH_only (call : Call)
    (sent : list RequestOptions) :
  exists options,
    snd (perform recorder call sent) = (sent ++ [options])%list
    /\ (body options = None <-> method options = GET \/ method options = DELETE)
    /\ (query options <> None -> method options = GET).
Proof.
  destruct call; eexists; (split; [reflexivity |]); cbn [body method query];
    (split; [split; [try discriminate; auto | intros [H | H]; discriminate || reflexivity]
            | try congruence; auto]).
Qed.

(** X16: a service that says at every page that there is more, and gives
    a cursor, keeps the traversal going for ever: no number of pages is
    enough for [fetchAllPages] to return. *)
Theorem fetchAllPages_has_no_bound
    (W T : Type) (fetchPage : option string -> Effect W NotionError.t (PaginatedList T)) :
  (forall cursor w, exists page w',
      fetchPage cursor w = (Success page, w')
      /\ has_more page = true
      /\ Option.isSome (next_cursor page) = true) ->
  forall fuel w, fetchAllPages fetchPage fuel w = None.
Proof.
  intros Hmore fuel. unfold fetchAllPages.
  generalize (@None string) as cursor. generalize (@nil T) as acc.
  induction fuel as [| fuel IH]; intros acc cursor w; cbn [fetchRecursive].
  - reflexivity.
  - destruct (Hmore cursor w) as [page [w' [-> [-> ->]]]]. cbn [andb]. apply IH.
Qed.

Lemma fetchAllPages_has_no_bound_witness :
  fetchAllPages Sample.endless 1000 tt = None.
Proof.
  refine (fetchAllPages_has_no_bound unit string Sample.endless _ 1000%nat tt).
  intros cursor w. exists Sample.first_page, w.
  split; [reflexivity |]. split; reflexivity.
Defined.

Lemma join_empty_app (a b : list string) :
  JS.join "" (a ++ b) = JS.join "" a ++ JS.join "" b.
Proof.
  induction a as [| x a IH]; cbn [app].
  - reflexivity.
  - destruct a as [| y a].
    + cbn [app]. destruct b as [| z b]; cbn [JS.join].
      * symmetry. apply append_empty.
      * reflexivity.
    + change (JS.join "" (x :: (y :: a) ++ b)) with (x ++ "" ++ JS.join "" ((y :: a) ++ b)).
      change (JS.join "" (x :: y :: a)) with (x ++ "" ++ JS.join "" (y :: a)).
      rewrite IH. cbn [append]. rewrite append_assoc'. reflexivity.
Qed.

(** X17: [extractPlainText] gives the plain texts one after the other with
    nothing between them: the text of two lists put together is the two
    texts put together, a single span gives its own plain text, and no span
    gives the empty string. *)
Theorem extractPlainText_concatenates (a b : list RichText) (span : RichText) :
  extractPlainText (a ++ b) = extractPlainText a ++ extractPlainText b
  /\ extractPlainText [span] = plain_text span
  /\ extractPlainText [] = "".
Proof.
  unfold extractPlainText. rewrite List.map_app, join_empty_app.
  repeat split.
Qed.

(* ====================================================================== *)
(** * The query string *)
(* ====================================================================== *)

Lemma form_char_round_trip c t :
  JS.percent_decode
    (JS.plus_to_space
       ((if JS.is_char " " c then "+"
         else if JS.is_form_safe c then String c ""
         else JS.percent_byte c) ++ t))
  = String c (JS.percent_decode (JS.plus_to_space t)).
Proof. destruct c as [[] [] [] [] [] [] [] []]; reflexivity. Qed.

Lemma form_decode_encode s : JS.form_decode (JS.form_encode s) = s.
Proof.
  unfold JS.form_decode.
  induction s as [| c s IH]; cbn [JS.form_encode]; [reflexivity |].
  rewrite form_char_round_trip, IH. reflexivity.
Qed.


Lemma form_char_no_separator c :
  all_chars (fun x => negb (is_separator x))
    (if JS.is_char " " c then "+"
     else if JS.is_form_safe c then String c ""
     else JS.percent_byte c) = true.
Proof. destruct c as [[] [] [] [] [] [] [] []]; reflexivity. Qed.

Lemma form_encode_no_separator s :
  all_chars (fun x => negb (is_separator x)) (JS.form_encode s) = true.
Proof.
  induction s as [| c s IH]; cbn [JS.form_encode]; [reflexivity |].
  rewrite all_chars_app, form_char_no_separator, IH. reflexivity.
Qed.

Lemma no_separator_no_char (q : ascii -> bool) s :
  (forall c, q c = true -> is_separator c = true) ->
  all_chars (fun x => negb (is_separator x)) s = true ->
  all_chars (fun x => negb (q x)) s = true.
Proof.
  intros Hq. apply all_chars_weaken. intros c Hc.
  apply negb_true_iff in Hc. apply negb_true_iff.
  destruct (q c) eqn:Hqc; [| reflexivity]. rewrite (Hq c Hqc) in Hc. discriminate.
Qed.

Lemma cut_at_first (q : ascii -> bool) a c b :
  all_chars (fun x => negb (q x)) a = true ->
  q c = true ->
  JS.cut q (a ++ String c b) = (a, Some b).
Proof.
  intros Ha Hc. induction a as [| x a IH]; cbn [append JS.cut].
  - rewrite Hc. reflexivity.
  - cbn [all_chars] in Ha. apply andb_true_iff in Ha as [Hx Ha].
    apply negb_true_iff in Hx. rewrite Hx, (IH Ha). reflexivity.
Qed.

Lemma split_at_none (q : ascii -> bool) a :
  all_chars (fun x => negb (q x)) a = true -> JS.split_at q a = [a].
Proof.
  induction a as [| x a IH]; cbn [JS.split_at all_chars]; [reflexivity |].
  intros Ha. apply andb_true_iff in Ha as [Hx Ha].
  apply negb_true_iff in Hx. rewrite Hx, (IH Ha). reflexivity.
Qed.

Lemma split_at_first (q : ascii -> bool) a c b :
  all_chars (fun x => negb (q x)) a = true ->
  q c = true ->
  JS.split_at q (a ++ String c b) = a :: JS.split_at q b.
Proof.
  intros Ha Hc. induction a as [| x a IH]; cbn [append JS.split_at].
  - rewrite Hc. reflexivity.
  - cbn [all_chars] in Ha. apply andb_true_iff in Ha as [Hx Ha].
    apply negb_true_iff in Hx. rewrite Hx, (IH Ha). reflexivity.
Qed.

(** One name and value, as the serialiser writes them. *)
Lemma form_piece_parsed k v :
  (if (JS.form_encode k ++ "=" ++ JS.form_encode v) =? "" then []
   else
     let (a, b) := JS.cut (JS.is_char "=") (JS.form_encode k ++ "=" ++ JS.form_encode v) in
     [(JS.form_decode a, JS.form_decode (match b with Some x => x | None => "" end))])
  = [(k, v)].
Proof.
  change ("=" ++ JS.form_encode v) with (String "=" (JS.form_encode v)).
  rewrite (cut_at_first (JS.is_char "=") (JS.form_encode k) "=" (JS.form_encode v)).
  - rewrite !form_decode_encode.
    destruct (JS.form_encode k); reflexivity.
  - apply no_separator_no_char; [| apply form_encode_no_separator].
    intros c Hc. unfold is_separator. rewrite Hc. apply orb_true_r.
  - reflexivity.
Qed.

Lemma form_piece_no_ampersand k v :
  all_chars (fun x => negb (JS.is_char "&" x))
    (JS.form_encode k ++ "=" ++ JS.form_encode v) = true.
Proof.
  rewrite !all_chars_app.
  rewrite !(no_separator_no_char (JS.is_char "&") _
              (fun c Hc => eq_trans (f_equal (fun x => x || JS.is_char "=" c) Hc) eq_refl)
              (form_encode_no_separator _)).
  reflexivity.
Qed.

(** The parser reads back what the serialiser wrote. *)
Lemma form_parse_serialize pairs :
  JS.form_parse (JS.form_serialize pairs) = pairs.
Proof.
  unfold JS.form_parse, JS.form_serialize.
  induction pairs as [| [k v] pairs IH]; [reflexivity |].
  destruct pairs as [| p pairs'].
  - cbn [List.map JS.join fst snd].
    rewrite (split_at_none _ _ (form_piece_no_ampersand k v)).
    cbn [flat_map]. cbv beta. rewrite (form_piece_parsed k v). reflexivity.
  - set (enc := fun kv : string * string =>
                  JS.form_encode (fst kv) ++ "=" ++ JS.form_encode (snd kv)) in *.
    change (JS.join "&" (List.map enc ((k, v) :: p :: pairs')))
      with ((JS.form_encode k ++ "=" ++ JS.form_encode v)
            ++ String "&" (JS.join "&" (List.map enc (p :: pairs')))).
    rewrite (split_at_first (JS.is_char "&") _ "&" _ (form_piece_no_ampersand k v) eq_refl).
    cbn [flat_map]. cbv beta. rewrite (form_piece_parsed k v), IH. reflexivity.
Qed.

Lemma set_param_new key value pairs :
  ~ In key (List.map fst pairs) ->
  JS.set_param key value pairs = (pairs ++ [(key, value)])%list.
Proof.
  induction pairs as [| [k v] pairs IH]; cbn [JS.set_param List.map fst In app]; intros Hn.
  - reflexivity.
  - destruct (String.eqb_spec k key) as [-> | Hne].
    + exfalso. apply Hn. left. reflexivity.
    + rewrite IH; [reflexivity |]. intros Hin. apply Hn. right. exact Hin.
Qed.

Lemma query_pairs_cons entry entries :
  query_pairs (entry :: entries)
  = if is_set entry then (fst entry, String_ (snd entry)) :: query_pairs entries
    else query_pairs entries.
Proof. unfold query_pairs. cbn [filter]. destruct (is_set entry); reflexivity. Qed.

Lemma set_query_entry_set url entry :
  is_set entry = true ->
  set_query_entry url entry = JS.searchParams_set (fst entry) (String_ (snd entry)) url.
Proof.
  unfold is_set, set_query_entry. destruct (snd entry); try discriminate; reflexivity.
Qed.

(** The search parameters after all the entries were set. *)
Lemma fold_set_entries_query entries : forall url pairs,
  JS.form_parse (query_text url) = pairs ->
  NoDup (List.map fst pairs ++ List.map fst entries) ->
  query_pairs entries <> [] ->
  JS.query (fold_left set_query_entry entries url)
  = Some (JS.form_serialize (pairs ++ query_pairs entries)).
Proof.
  induction entries as [| entry entries IH]; intros url pairs Hq Hnd Hne.
  - contradiction Hne. reflexivity.
  - cbn [fold_left]. rewrite query_pairs_cons in *.
    assert (Hfresh : ~ In (fst entry) (List.map fst pairs)).
    { intros Hin. cbn [List.map] in Hnd. apply NoDup_remove_2 in Hnd.
      apply Hnd. apply in_or_app. left. exact Hin. }
    assert (Hnd' : forall extra, extra = [] \/ extra = [fst entry] ->
                     NoDup ((List.map fst pairs ++ extra) ++ List.map fst entries)).
    { intros extra [-> | ->].
      - rewrite app_nil_r. cbn [List.map] in Hnd. apply NoDup_remove_1 in Hnd. exact Hnd.
      - rewrite <- app_assoc. exact Hnd. }
    destruct (is_set entry) eqn:Hs.
    + rewrite (set_query_entry_set url entry Hs).
      set (url1 := JS.searchParams_set (fst entry) (String_ (snd entry)) url).
      assert (Hq1 : JS.form_parse (query_text url1)
                    = (pairs ++ [(fst entry, String_ (snd entry))])%list).
      { subst url1. unfold query_text, JS.searchParams_set. cbn [JS.query].
        rewrite form_parse_serialize. fold (query_text url). rewrite Hq.
        apply set_param_new. exact Hfresh. }
      destruct (query_pairs entries) as [| p ps] eqn:Hrest.
      * assert (Hid : fold_left set_query_entry entries url1 = url1).
        { clear - Hrest. revert url1. unfold query_pairs in Hrest.
          apply map_eq_nil in Hrest.
          induction entries as [| e es IHes]; intros u; [reflexivity |].
          cbn [filter] in Hrest. destruct (is_set e) eqn:He; [discriminate |].
          cbn [fold_left]. rewrite (set_unset_entry e u He). apply IHes. exact Hrest. }
        rewrite Hid. subst url1. unfold JS.searchParams_set. cbn [JS.query].
        fold (query_text url). rewrite Hq, (set_param_new _ _ _ Hfresh). reflexivity.
      * rewrite (IH url1 _ Hq1).
        -- rewrite <- app_assoc. reflexivity.
        -- rewrite List.map_app. cbn [List.map fst]. apply Hnd'. right. reflexivity.
        -- discriminate.
    + rewrite (set_unset_entry entry url Hs).
      apply (IH url pairs Hq).
      * specialize (Hnd' [] (or_introl eq_refl)). rewrite app_nil_r in Hnd'. exact Hnd'.
      * exact Hne.
Qed.

(** X12: for a path of the facade and a query record (whose keys are
    distinct, as the keys of a record are), the URL is the origin of the
    base, the path and, when some entry holds a value, [?] and the entries
    that hold one, in their order, as [name=value] pairs joined by [&];
    names and values are encoded so that parsing the query string gives them
    back unchanged. *)
Theorem buildURL_writes_the_query_so_that_it_reads_back
    (config : NotionClientConfig) (p : string)
    (entries : list (string * QueryValue)) (b : JS.URL) :
  JS.parse_absolute (JS.clean (JS.or_string (baseURL config) "https://api.notion.com/v1"))
  = Some b ->
  JS.starts_with "/v1/" p = true ->
  all_chars is_path_char p = true ->
  NoDup (List.map fst entries) ->
  Pipeline.buildURL config p (Some entries)
  = Some (JS.origin b ++ p ++ query_suffix (query_pairs entries))
  /\ JS.form_parse (JS.form_serialize (query_pairs entries)) = query_pairs entries.
Proof.
  intros Hb Hv Hp Hnd. split; [| apply form_parse_serialize].
  destruct (URL_new_facade_path p _ b Hb Hv Hp) as [segs [Hnew Hjoin]].
  unfold Pipeline.buildURL. rewrite Hnew.
  change (fold_left _ entries ?u) with (fold_left set_query_entry entries u).
  set (url0 := JS.mkURL (JS.protocol b) (JS.host b) segs None None).
  destruct (set_query_entries_keep entries url0) as [H1 [H2 [H3 H4]]].
  unfold JS.URL_toString, JS.origin, JS.pathname. rewrite H1, H2, H3, H4.
  cbn [url0 JS.protocol JS.host JS.path JS.fragment]. rewrite Hjoin, append_empty.
  destruct (query_pairs entries) as [| pair pairs] eqn:Hpairs.
  - assert (Hnone : filter is_set entries = []).
    { unfold query_pairs in Hpairs. apply map_eq_nil in Hpairs. exact Hpairs. }
    rewrite fold_set_entries_filter, Hnone. reflexivity.
  - rewrite (fold_set_entries_query entries url0 [] eq_refl).
    + rewrite Hpairs. reflexivity.
    + exact Hnd.
    + rewrite Hpairs. discriminate.
Qed.

Lemma buildURL_writes_the_query_so_that_it_reads_back_witness :
  Pipeline.buildURL Sample.config "/v1/users"
    (Some [("start_cursor", QString "a b&c=d"); ("filter", QNull);
           ("page_size", QNumber 100)])
  = Some (JS.origin (JS.mkURL "https:" "api.notion.com" ["v1"] None None)
          ++ "/v1/users"
          ++ query_suffix
               (query_pairs [("start_cursor", QString "a b&c=d"); ("filter", QNull);
                             ("page_size", QNumber 100)]))
  /\ JS.form_parse
       (JS.form_serialize
          (query_pairs [("start_cursor", QString "a b&c=d"); ("filter", QNull);
                        ("page_size", QNumber 100)]))
     = query_pairs [("start_cursor", QString "a b&c=d"); ("filter", QNull);
                    ("page_size", QNumber 100)].
Proof.
  apply (buildURL_writes_the_query_so_that_it_reads_back Sample.config "/v1/users"
           [("start_cursor", QString "a b&c=d"); ("filter", QNull);
            ("page_size", QNumber 100)]
           (JS.mkURL "https:" "api.notion.com" ["v1"] None None)).
  - vm_compute. reflexivity.
  - reflexivity.
  - reflexivity.
  - cbn. repeat constructor; cbn; intuition discriminate.
Defined.

Example buildURL_encodes_a_cursor :
  Pipeline.buildURL Sample.config (path Sample.list_users) (query Sample.list_users)
  = Some "https://api.notion.com/v1/users?start_cursor=a+b%26c%3Dd&page_size=100".
Proof. vm_compute. reflexivity. Qed.

Lemma remove_chars_slash r :
  JS.remove_chars JS.is_tab_or_newline (String "/" r)
  = String "/" (JS.remove_chars JS.is_tab_or_newline r).
Proof. reflexivity. Qed.

Lemma clean_slash r : exists r', JS.clean (String "/" r) = String "/" r'.
Proof.
  unfold JS.clean. change (JS.trim_start (String "/" r)) with (String "/" r).
  cbn [JS.trim_end]. change (JS.is_c0_or_space "/") with false. cbv iota.
  destruct (JS.trim_end r) as [| c t]; rewrite remove_chars_slash; eauto.
Qed.

Lemma cut_keeps_head (q : ascii -> bool) c r :
  q c = false -> exists r' rest, JS.cut q (String c r) = (String c r', rest).
Proof.
  intros Hc. cbn [JS.cut]. rewrite Hc. destruct (JS.cut q r) as [a b]. eauto.
Qed.

(** A reference that begins with a slash takes from the base its scheme
    and host and nothing else. *)
Lemma relative_slash r b1 b2 :
  JS.protocol b1 = JS.protocol b2 ->
  JS.host b1 = JS.host b2 ->
  JS.relative (String "/" r) b1 = JS.relative (String "/" r) b2.
Proof.
  intros Hprot Hhost. unfold JS.relative, JS.split3.
  destruct (cut_keeps_head (JS.is_char "#") "/" r eq_refl) as [r1 [frag ->]].
  destruct (cut_keeps_head (JS.is_char "?") "/" r1 eq_refl) as [r2 [q ->]].
  change (JS.is_slash "/") with true. cbv iota.
  unfold JS.scheme_name. rewrite Hprot, Hhost. reflexivity.
Qed.

Lemma URL_new_slash p base1 base2 b1 b2 :
  JS.parse_absolute (JS.clean base1) = Some b1 ->
  JS.parse_absolute (JS.clean base2) = Some b2 ->
  JS.protocol b1 = JS.protocol b2 ->
  JS.host b1 = JS.host b2 ->
  JS.starts_with "/" p = true ->
  JS.URL_new p base1 = JS.URL_new p base2.
Proof.
  intros H1 H2 Hprot Hhost Hp. unfold JS.URL_new. rewrite H1, H2.
  destruct p as [| c r]; [discriminate |].
  cbn [JS.starts_with] in Hp. rewrite andb_true_r in Hp.
  apply Ascii.eqb_eq in Hp. subst c.
  destruct (clean_slash r) as [r' ->].
  change (JS.scheme_of (String "/" r')) with (@None (string * string)). cbv iota.
  apply relative_slash; assumption.
Qed.

(** X13: for a path that begins with a slash, whatever else it holds, the
    URL depends on the base URL through its scheme and host alone: two
    configurations whose base URLs differ in their path, query or fragment
    only give the same URL for the same path and query record. *)
Theorem buildURL_takes_only_scheme_and_host_from_the_base
    (config1 config2 : NotionClientConfig) (b1 b2 : JS.URL)
    (p : string) (q : option (list (string * QueryValue))) :
  JS.parse_absolute (JS.clean (JS.or_string (baseURL config1) "https://api.notion.com/v1"))
  = Some b1 ->
  JS.parse_absolute (JS.clean (JS.or_string (baseURL config2) "https://api.notion.com/v1"))
  = Some b2 ->
  JS.protocol b1 = JS.protocol b2 ->
  JS.host b1 = JS.host b2 ->
  JS.starts_with "/" p = true ->
  Pipeline.buildURL config1 p q = Pipeline.buildURL config2 p q.
Proof.
  intros H1 H2 Hprot Hhost Hp. unfold Pipeline.buildURL.
  rewrite (URL_new_slash p _ _ b1 b2 H1 H2 Hprot Hhost Hp). reflexivity.
Qed.

Lemma buildURL_takes_only_scheme_and_host_from_the_base_witness :
  Pipeline.buildURL Sample.proxied "/v1/pages/../a b?x#y" None
  = Pipeline.buildURL
      {| auth := "other"; notionVersion := None;
         baseURL := Some "https://proxy.example.com/elsewhere?k=v#top";
         timeoutMs := None; fetch := None |}
      "/v1/pages/../a b?x#y" None.
Proof.
  apply (buildURL_takes_only_scheme_and_host_from_the_base Sample.proxied
           {| auth := "other"; notionVersion := None;
              baseURL := Some "https://proxy.example.com/elsewhere?k=v#top";
              timeoutMs := None; fetch := None |}
           (JS.mkURL "https:" "proxy.example.com" ["notion"; "v1"] None None)
           (JS.mkURL "https:" "proxy.example.com" ["elsewhere"] (Some "k=v") (Some "top"))).
  - vm_compute. reflexivity.
  - vm_compute. reflexivity.
  - reflexivity.
  - reflexivity.
  - reflexivity.
Defined.

(** X3: the retry ends at the first failure that is not transient: when
    the first network call fails with a transient code and the second with
    another code, the request fails with the error of the second call after
    two calls and the one sleep of a second. *)
Theorem request_stops_at_the_first_permanent_failure
    (global_fetch : FetchFn) (config : NotionClientConfig)
    (options : RequestOptions) (url : string) (w : World)
    (e1 e2 : NotionError.t) :
  (1 <= permits w)%Z ->
  Pipeline.buildURL config (path options) (query options) = Some url ->
  fails_with (Pipeline.fetchFn global_fetch config (fetched w) url
                (Pipeline.requestInit config options)) e1 ->
  In (NotionError.code e1) transient_codes ->
  fails_with (Pipeline.fetchFn global_fetch config (S (fetched w)) url
                (Pipeline.requestInit config options)) e2 ->
  ~ In (NotionError.code e2) transient_codes ->
  exists w',
    request (createHttpClient global_fetch config semaphore_limiter) options w
    = (Failure e2, w')
    /\ fetched w' = S (S (fetched w))
    /\ trace w'
       = (trace w
          ++ attempt_events url (Pipeline.requestInit config options)
          ++ [EvSleep 1000]
          ++ attempt_events url (Pipeline.requestInit config options))%list.
Proof.
  intros Hp Hu Hf1 Hc1 Hf2 Hc2.
  set (init := Pipeline.requestInit config options) in *.
  set (opts := {| times := 3;
                  schedule := Schedule.exponential (Duration.seconds 1);
                  while := Pipeline.retryable |}).
  set (self := Pipeline.attempt global_fetch config semaphore_limiter options).
  set (w1 := elapse (schedule opts 0) (after_attempt url init w)).
  assert (Hp1 : (1 <= permits w1)%Z).
  { subst w1. rewrite sleep_permits, after_attempt_permits. exact Hp. }
  exists (after_attempt url init w1). split; [| split].
  - change (request (createHttpClient global_fetch config semaphore_limiter) options w)
      with (retry_loop opts 3 0 self w).
    rewrite (retry_loop_again opts self 2 0 w e1 (after_attempt url init w)).
    + apply retry_loop_refused.
      * apply attempt_fails; assumption.
      * cbn [while opts]. destruct (Pipeline.retryable e2) eqn:Hr; [| reflexivity].
        apply retryable_transient in Hr. contradiction.
    + apply attempt_fails; assumption.
    + apply retryable_transient. exact Hc1.
  - reflexivity.
  - rewrite after_attempt_trace. subst w1.
    rewrite sleep_trace, after_attempt_trace, <- !app_assoc. reflexivity.
Qed.

Lemma request_stops_at_the_first_permanent_failure_witness :
  exists w',
    request (createHttpClient Sample.limited_then_gone Sample.config semaphore_limiter)
      Sample.retrieve_page Sample.world
    = (Failure (NotionError.make 404 object_not_found "no such page" (Some "r-1")), w')
    /\ fetched w' = S (S (fetched Sample.world))
    /\ trace w'
       = (trace Sample.world
          ++ attempt_events Sample.retrieve_page_url
               (Pipeline.requestInit Sample.config Sample.retrieve_page)
          ++ [EvSleep 1000]
          ++ attempt_events Sample.retrieve_page_url
               (Pipeline.requestInit Sample.config Sample.retrieve_page))%list.
Proof.
  apply (request_stops_at_the_first_permanent_failure Sample.limited_then_gone
           Sample.config Sample.retrieve_page Sample.retrieve_page_url Sample.world
           (NotionError.make 429 rate_limited "slow down" None)).
  - cbn. lia.
  - vm_compute. reflexivity.
  - intros w. vm_compute. reflexivity.
  - cbn. left. reflexivity.
  - intros w. vm_compute. reflexivity.
  - cbn. intros [H | [H | [H | [H | []]]]]; discriminate H.
Defined.

(** X19: the constructor of [NotionError] accepts a code exactly when it is
    the string of one of the fourteen error codes, and the error then holds
    that code: every code is accepted under its own string, and a string
    that is accepted is the string of the code held. *)
Theorem NotionError_new_accepts_the_known_codes (status : Z) :
  (forall c message,
      NotionError.new status (Some (JS.JString (code_string c)))
        (Some (JS.JString message)) None
      = Some (NotionError.make status c message None))
  /\ (forall s message requestId e,
         NotionError.new status (Some (JS.JString s)) message requestId = Some e ->
         code_string (NotionError.code e) = s /\ NotionError.status e = status).
Proof.
  split.
  - intros c message. destruct c; reflexivity.
  - intros s message requestId e. unfold NotionError.new, NotionError.literal.
    destruct (find (fun c => code_string c =? s) NotionErrorCode_values) as [c |] eqn:Hfind;
      [| discriminate].
    apply find_some in Hfind as [_ Hc]. apply String.eqb_eq in Hc.
    destruct (NotionError.string_ message); [| discriminate].
    destruct (NotionError.optional_string requestId); [| discriminate].
    intros H. injection H as <-. split; [exact Hc | reflexivity].
Qed.

Lemma NotionError_new_accepts_the_known_codes_witness :
  code_string (NotionError.code (NotionError.make 409 conflict_error "busy" (Some "r-2")))
  = "conflict_error"
  /\ NotionError.status (NotionError.make 409 conflict_error "busy" (Some "r-2")) = 409%Z.
Proof.
  apply (proj2 (NotionError_new_accepts_the_known_codes 409) "conflict_error"
           (Some (JS.JString "busy")) (Some (JS.JString "r-2"))).
  reflexivity.
Defined.

(** The request of a query or a search whose request object is absent or
    falsy. *)
Lemma or_empty_falsy (req : option JS.json) :
  (forall v, req = Some v -> JS.truthy v = false) ->
  or_empty req = JS.JObject [].
Proof.
  intros H. destruct req as [v |]; [| reflexivity].
  unfold or_empty. rewrite (H v eq_refl). reflexivity.
Qed.

(** X15: [databases.query] and [search], made without a request object
    or with any falsy one ([null], [false], [0], the empty string), hand
    the HTTP client a [POST] whose body is the empty object; the pipeline
    sends it with the body [{}] and the JSON content type. *)
Theorem query_and_search_default_to_an_empty_object
    (config : NotionClientConfig) (id : UUID) (req : option JS.json)
    (sent : list RequestOptions) :
  (forall v, req = Some v -> JS.truthy v = false) ->
  exists for_query for_search,
    snd (databases.query recorder id req sent) = (sent ++ [for_query])%list
    /\ snd (search recorder req sent) = (sent ++ [for_search])%list
    /\ path for_query = "/v1/databases/" ++ id ++ "/query"
    /\ path for_search = "/v1/search"
    /\ Forall
         (fun options =>
            method options = POST
            /\ body options = Some (JS.JObject [])
            /\ init_method (Pipeline.requestInit config options) = POST
            /\ init_body (Pipeline.requestInit config options) = Some "{}"
            /\ In ("Content-Type", "application/json")
                 (init_headers (Pipeline.requestInit config options)))
         [for_query; for_search].
Proof.
  intros Hfalsy.
  unfold databases.query, search. rewrite (or_empty_falsy req Hfalsy).
  eexists. eexists. split; [reflexivity |]. split; [reflexivity |].
  split; [reflexivity |]. split; [reflexivity |].
  assert (Hin : forall p,
             In ("Content-Type", "application/json")
               (init_headers
                  (Pipeline.requestInit config
                     {| method := POST; path := p; body := Some (JS.JObject []);
                        query := None |}))).
  { intros p. cbn. right. right. left. reflexivity. }
  constructor; [| constructor; [| constructor]];
    (split; [reflexivity |]); (split; [reflexivity |]); (split; [reflexivity |]);
    (split; [reflexivity | apply Hin]).
Qed.

Lemma query_and_search_default_to_an_empty_object_witness :
  exists for_query for_search,
    snd (databases.query recorder Sample.id (Some (JS.JString "")) [])
    = ([] ++ [for_query])%list
    /\ snd (search recorder (Some (JS.JString "")) []) = ([] ++ [for_search])%list
    /\ path for_query = "/v1/databases/" ++ Sample.id ++ "/query"
    /\ path for_search = "/v1/search"
    /\ Forall
         (fun options =>
            method options = POST
            /\ body options = Some (JS.JObject [])
            /\ init_method (Pipeline.requestInit Sample.config options) = POST
            /\ init_body (Pipeline.requestInit Sample.config options) = Some "{}"
            /\ In ("Content-Type", "application/json")
                 (init_headers (Pipeline.requestInit Sample.config options)))
         [for_query; for_search].
Proof.
  apply (query_and_search_default_to_an_empty_object Sample.config Sample.id
           (Some (JS.JString "")) []).
  intros v Hv. injection Hv as <-. reflexivity.
Defined.

(* ====================================================================== *)
(** * The URL the facade's requests are sent to *)
(* ====================================================================== *)





